(** * ward / archive / models.py

    A shallow embedding of the helper logic of [www/archive/models.py]:
    the time-difference formatter, the display and refresh helpers of
    [Group], [FBUser] and [Post], the tombstone factories, the
    [UserActivity] counters, the statistics refresh gate and the
    month-window retention sweep.

    Conventions.
    - A [datetime] is a number of microseconds since some epoch and a
      [timedelta] a signed number of microseconds (the resolution of
      Python's [datetime]); [timedelta.days] is the floor of the
      duration in days, as Python normalises it.
    - The float returned by [total_seconds()] is represented exactly,
      by its number of microseconds.  For durations of at most 2^32
      seconds, past or ahead, the float operations of the source
      ([divmod], comparison with 0, [int]) agree with this exact
      arithmetic; a longer past duration has a positive number of days,
      an integer attribute, and the result does not depend on the
      float.
    - The object-relational mapper the file is written against (Django)
      is modelled as a store of tables.  A table is the list of its rows
      in storage order, which is the order in which an unordered query
      returns them, together with the next value of its auto-increment
      primary key.  A call that raises loses the store.
    - [timezone.now()] reads the field [now] of the store: the clock
      stands still during one call and is moved by [advance] between
      calls.
    - The helpers compute on unbounded integers, as Python does.  The
      range of an [IntegerField] column is the database's: statements
      that depend on a write being accepted run the call under
      [within_column].
    - Statements that depend on float arithmetic agreeing with the exact
      one carry the bound up to which it does.
    - [strftime] is a parameter of the methods that format a timestamp. *)

From Stdlib Require Import ZArith List String Ascii Bool Lia DecimalString.
Import ListNotations.
Open Scope string_scope.
Open Scope Z_scope.

(** ** Time *)

Definition datetime := Z.
Definition timedelta := Z.

Module timezone_units.
Definition second : timedelta := 1000000.
Definition minute : timedelta := 60 * second.
Definition hour : timedelta := 3600 * second.
Definition day : timedelta := 86400 * second.
End timezone_units.
Import timezone_units.

(** [timedelta(n)]: [n] days. *)
Definition timedelta_of_days (n : Z) : timedelta := n * day.

(** [diff.days] *)
Definition days (diff : timedelta) : Z := diff / day.

(** [diff.total_seconds()], a count of seconds kept to the microsecond. *)
Definition total_seconds (diff : timedelta) : Z := diff.

(** [divmod(s, k)] for a count of seconds [s] and a whole number of
    seconds [k]: floor quotient (a whole number) and remainder (seconds). *)
Definition divmod (s : Z) (k : Z) : Z * Z :=
  (s / (k * second), s mod (k * second)).

(** [int(s)] for a count of seconds: truncation towards zero. *)
Definition int (s : Z) : Z := Z.quot s second.

(** [str(n)] for an integer. *)
Definition str (n : Z) : string := NilZero.string_of_int (Z.to_int n).

(** ** Schema *)

Record FBUser := {
  FBUser_id : string;
  FBUser_name : string;
  FBUser_picture : option string;
  FBUser_updated_time : datetime }.

Record Group := {
  Group_id : string;
  Group_name : string;
  Group_description : option string;
  Group_updated_time : datetime;
  Group_privacy : string;
  Group_is_stored : bool;
  Group_post_count : Z;
  Group_comment_count : Z;
  Group_owner : option FBUser }.

Record Post := {
  Post_id : string;
  Post_user : FBUser;
  Post_created_time : datetime;
  Post_updated_time : datetime;
  Post_message : option string;
  Post_picture : option string;
  Post_comment_count : Z;
  Post_like_count : Z;
  Post_share_count : Z;
  Post_group : Group;
  Post_is_show : bool }.

(** A comment points to its parent comment, if it has one. *)
Unset Elimination Schemes.
Inductive Comment := Build_Comment {
  Comment_id : string;
  Comment_user : FBUser;
  Comment_created_time : datetime;
  Comment_message : option string;
  Comment_like_count : Z;
  Comment_comment_count : Z;
  Comment_post : Post;
  Comment_parent : option Comment;
  Comment_group : Group;
  Comment_is_show : bool }.
Set Elimination Schemes.

Record DeletedPost := {
  DeletedPost_id : string;
  DeletedPost_user : FBUser;
  DeletedPost_created_time : datetime;
  DeletedPost_updated_time : datetime;
  DeletedPost_message : option string;
  DeletedPost_picture : option string;
  DeletedPost_comment_count : Z;
  DeletedPost_like_count : Z;
  DeletedPost_share_count : Z;
  DeletedPost_group : Group }.

Record DeletedComment := {
  DeletedComment_id : string;
  DeletedComment_user : FBUser;
  DeletedComment_created_time : datetime;
  DeletedComment_message : option string;
  DeletedComment_like_count : Z;
  DeletedComment_comment_count : Z;
  DeletedComment_post : string;
  DeletedComment_parent : option string;
  DeletedComment_group : Group }.

(** The tables the helpers read and write.  Each record holds the
    declared fields of one row, a foreign key being stored as the primary
    key of the row it points to.  The implicit auto-increment [id] is kept
    beside the fields, by [Instance] and [Table] below. *)

Record UserActivity := {
  UserActivity_user : string;
  UserActivity_group : string;
  UserActivity_post_count : Z;
  UserActivity_comment_count : Z }.

Record GroupStatisticsUpdateList := {
  GroupStatisticsUpdateList_group : string;
  GroupStatisticsUpdateList_method : string;
  GroupStatisticsUpdateList_updated_time : datetime }.

Record MonthPost := {
  MonthPost_created_time : datetime;
  MonthPost_group : string;
  MonthPost_post : string }.

Record MonthComment := {
  MonthComment_created_time : datetime;
  MonthComment_group : string;
  MonthComment_comment : string }.

(** ** The store *)

(** A table: its rows, each under its primary key, in storage order, and
    the next value of the key. *)
Record Table (F : Type) := {
  rows : list (Z * F);
  next_id : Z }.
Arguments rows {F} _.
Arguments next_id {F} _.

(** A model instance in memory; [pk] is [None] until it is saved. *)
Record Instance (F : Type) := {
  pk : option Z;
  fields : F }.
Arguments pk {F} _.
Arguments fields {F} _.

Definition unsaved {F} (f : F) : Instance F := {| pk := None; fields := f |}.
Definition loaded {F} (x : Z * F) : Instance F := {| pk := Some (fst x); fields := snd x |}.
Definition assign {F} (g : F -> F) (r : Instance F) : Instance F :=
  {| pk := pk r; fields := g (fields r) |}.

Record DB := {
  now : datetime;
  UserActivity_objects : Table UserActivity;
  GroupStatisticsUpdateList_objects : Table GroupStatisticsUpdateList;
  MonthPost_objects : Table MonthPost;
  MonthComment_objects : Table MonthComment }.

(** Time passing between two calls. *)
Definition advance (dt : timedelta) (db : DB) : DB :=
  {| now := now db + dt;
     UserActivity_objects := UserActivity_objects db;
     GroupStatisticsUpdateList_objects := GroupStatisticsUpdateList_objects db;
     MonthPost_objects := MonthPost_objects db;
     MonthComment_objects := MonthComment_objects db |}.

(** What [models.Model] gives each class: the fields filled in by [save]
    ([auto_now_add]), its unique constraints beside the primary key, and
    its table. *)
Class Model (F : Type) := {
  pre_save : bool -> datetime -> F -> F;
  unique_clash : F -> F -> bool;
  objects : DB -> Table F;
  set_objects : Table F -> DB -> DB }.

#[export] Instance UserActivity_Model : Model UserActivity := {
  pre_save _ _ r := r;
  unique_clash _ _ := false;
  objects := UserActivity_objects;
  set_objects t db :=
    {| now := now db;
       UserActivity_objects := t;
       GroupStatisticsUpdateList_objects := GroupStatisticsUpdateList_objects db;
       MonthPost_objects := MonthPost_objects db;
       MonthComment_objects := MonthComment_objects db |} }.

Definition set_updated_time (t : datetime) (r : GroupStatisticsUpdateList) :=
  {| GroupStatisticsUpdateList_group := GroupStatisticsUpdateList_group r;
     GroupStatisticsUpdateList_method := GroupStatisticsUpdateList_method r;
     GroupStatisticsUpdateList_updated_time := t |}.

(** [updated_time] is [auto_now_add]: set to the clock when the row is
    inserted, kept as assigned when it is updated. *)
#[export] Instance GroupStatisticsUpdateList_Model : Model GroupStatisticsUpdateList := {
  pre_save add t r := if add then set_updated_time t r else r;
  unique_clash _ _ := false;
  objects := GroupStatisticsUpdateList_objects;
  set_objects t db :=
    {| now := now db;
       UserActivity_objects := UserActivity_objects db;
       GroupStatisticsUpdateList_objects := t;
       MonthPost_objects := MonthPost_objects db;
       MonthComment_objects := MonthComment_objects db |} }.

(** [post] is a [OneToOneField]: no two rows for one post. *)
#[export] Instance MonthPost_Model : Model MonthPost := {
  pre_save _ _ r := r;
  unique_clash r x := String.eqb (MonthPost_post r) (MonthPost_post x);
  objects := MonthPost_objects;
  set_objects t db :=
    {| now := now db;
       UserActivity_objects := UserActivity_objects db;
       GroupStatisticsUpdateList_objects := GroupStatisticsUpdateList_objects db;
       MonthPost_objects := t;
       MonthComment_objects := MonthComment_objects db |} }.

#[export] Instance MonthComment_Model : Model MonthComment := {
  pre_save _ _ r := r;
  unique_clash r x := String.eqb (MonthComment_comment r) (MonthComment_comment x);
  objects := MonthComment_objects;
  set_objects t db :=
    {| now := now db;
       UserActivity_objects := UserActivity_objects db;
       GroupStatisticsUpdateList_objects := GroupStatisticsUpdateList_objects db;
       MonthPost_objects := MonthPost_objects db;
       MonthComment_objects := t |} }.

(** ** Calls: state and exceptions *)

Inductive exn := IndexError | IntegrityError | AssertionError | DataError.

Inductive result (A : Type) :=
| Ok (a : A) (db : DB)
| Raise (e : exn).
Arguments Ok {A} _ _.
Arguments Raise {A} _.

Definition M (A : Type) := DB -> result A.

Definition ret {A} (a : A) : M A := fun db => Ok a db.

Definition bind {A B} (m : M A) (f : A -> M B) : M B :=
  fun db => match m db with
            | Ok a db' => f a db'
            | Raise e => Raise e
            end.

Definition raise {A} (e : exn) : M A := fun _ => Raise e.

Declare Scope py_scope.
Delimit Scope py_scope with py.
Notation "x <- m ;; k" := (bind m (fun x => k))
  (at level 100, m at next level, right associativity) : py_scope.
Notation "' pat <- m ;; k" := (bind m (fun x => match x with pat => k end))
  (at level 100, pat pattern, m at next level, right associativity) : py_scope.
Notation "m ;; k" := (bind m (fun _ => k))
  (at level 100, right associativity) : py_scope.
Open Scope py_scope.

(** [for x in l: body(x)] *)
Fixpoint for_each {A} (l : list A) (body : A -> M unit) : M unit :=
  match l with
  | [] => ret tt
  | x :: l' => body x ;; for_each l' body
  end.

Definition timezone_now : M datetime := fun db => Ok (now db) db.

(** ** [save], [delete] and query sets *)

Definition nonempty {A} (l : list A) : bool :=
  match l with [] => false | _ :: _ => true end.

Fixpoint list_alter {A} (f : A -> A) (k : nat) (l : list A) : list A :=
  match l, k with
  | [], _ => []
  | x :: l', O => f x :: l'
  | x :: l', S k' => x :: list_alter f k' l'
  end.

Section Orm.
Context {F : Type} `{Model F}.

Definition has_pk (i : Z) (x : Z * F) : bool := fst x =? i.

(** [INSERT]: refused when a unique constraint is violated. *)
Definition sql_insert (i : Z) (f : F) : M unit := fun db =>
  let t := objects db in
  if existsb (fun x => unique_clash f (snd x)) (rows t) then Raise IntegrityError
  else Ok tt (set_objects {| rows := rows t ++ [(i, f)]; next_id := next_id t |} db).

(** [UPDATE ... WHERE id = i] *)
Definition sql_update (i : Z) (f : F) : M unit := fun db =>
  let t := objects db in
  if existsb (fun x => negb (has_pk i x) && unique_clash f (snd x)) (rows t)
  then Raise IntegrityError
  else Ok tt (set_objects
                {| rows := map (fun x => if has_pk i x then (i, f) else x) (rows t);
                   next_id := next_id t |} db).

(** The next value of the auto-increment key. *)
Definition nextval : M Z := fun db =>
  let t := objects db in
  Ok (next_id t) (set_objects {| rows := rows t; next_id := next_id t + 1 |} db).

Definition pk_exists (i : Z) : M bool := fun db =>
  Ok (existsb (has_pk i) (rows (objects db))) db.

(** [r.save()]: an instance without a primary key is inserted under the
    next one; an instance with one overwrites its row, or is inserted
    when that row is gone.  (The key [save] writes back into a new
    instance is not modelled: no caller reads it.) *)
Definition save (r : Instance F) : M unit :=
  t <- timezone_now ;;
  match pk r with
  | None =>
      i <- nextval ;;
      sql_insert i (pre_save true t (fields r))
  | Some i =>
      stored <- pk_exists i ;;
      if (stored : bool) then sql_update i (pre_save false t (fields r))
      else sql_insert i (pre_save true t (fields r))
  end.

(** [r.delete()] *)
Definition delete (r : Instance F) : M unit :=
  match pk r with
  | None => raise AssertionError
  | Some i => fun db =>
      let t := objects db in
      Ok tt (set_objects {| rows := filter (fun x => negb (has_pk i x)) (rows t);
                            next_id := next_id t |} db)
  end.

(** *** Query sets

    [objects.filter(...)] builds a lazy query set.  Testing it as a
    condition or iterating over it runs the query once and keeps the
    instances in its result cache; [qs[k]] then is the cached instance,
    the same object each time.  On a query set not evaluated yet,
    [qs[k]] runs a query of its own and yields a fresh instance each
    time. *)

Record QuerySet := {
  where_ : F -> bool;
  result_cache : option (list (Instance F)) }.

Definition objects_filter (p : F -> bool) : QuerySet :=
  {| where_ := p; result_cache := None |}.

Definition matching (p : F -> bool) (t : Table F) : list (Z * F) :=
  filter (fun x => p (snd x)) (rows t).

Definition sql_select (p : F -> bool) (db : DB) : list (Instance F) :=
  map loaded (matching p (objects db)).

Definition fetch_all (qs : QuerySet) : M QuerySet := fun db =>
  match result_cache qs with
  | Some _ => Ok qs db
  | None => Ok {| where_ := where_ qs;
                  result_cache := Some (sql_select (where_ qs) db) |} db
  end.

Definition cached (qs : QuerySet) : list (Instance F) :=
  match result_cache qs with Some l => l | None => [] end.

(** [if qs:] *)
Definition qs_bool (qs : QuerySet) : M (bool * QuerySet) :=
  qs' <- fetch_all qs ;;
  ret (nonempty (cached qs'), qs').

(** [for x in qs:] *)
Definition qs_iter (qs : QuerySet) : M (list (Instance F) * QuerySet) :=
  qs' <- fetch_all qs ;;
  ret (cached qs', qs').

(** [qs.exists()] *)
Definition qs_exists (qs : QuerySet) : M bool := fun db =>
  match result_cache qs with
  | Some l => Ok (nonempty l) db
  | None => Ok (nonempty (matching (where_ qs) (objects db))) db
  end.

(** [qs[k]] *)
Definition qs_getitem (qs : QuerySet) (k : nat) : M (Instance F) := fun db =>
  let l := match result_cache qs with
           | Some l => l
           | None => sql_select (where_ qs) db
           end in
  match nth_error l k with
  | Some r => Ok r db
  | None => Raise IndexError
  end.

(** [qs[k].field = v]: the assignment [g] lands on the cached instance
    when there is one, and on a temporary otherwise. *)
Definition qs_setattr (qs : QuerySet) (k : nat) (g : F -> F) : M QuerySet :=
  _ <- qs_getitem qs k ;;
  ret (match result_cache qs with
       | Some l => {| where_ := where_ qs;
                      result_cache := Some (list_alter (assign g) k l) |}
       | None => qs
       end).
End Orm.
Arguments QuerySet F : clear implicits.

(** ** [get_different_time] *)

Definition get_different_time (time : datetime) : M string :=
  now <- timezone_now ;;
  let diff := now - time in
  let s := total_seconds diff in
  let '(hours, remainder) := divmod s 3600 in
  let '(minutes, seconds) := divmod remainder 60 in
  if days diff >? 0 then ret (str (days diff) ++ "days")%string
  else if hours >? 0 then ret (str hours ++ "hours")%string
  else if minutes >? 0 then ret (str minutes ++ "mins")%string
  else ret (str (int seconds) ++ "secs")%string.

(** ** Display and refresh helpers *)

(** [s.split(sep)] for a separator of one character: the pieces between
    the occurrences of [sep], never an empty list. *)
Fixpoint split (sep : ascii) (s : string) : list string :=
  match s with
  | EmptyString => [EmptyString]
  | String c s' =>
      if Ascii.eqb c sep then EmptyString :: split sep s'
      else match split sep s' with
           | [] => [String c EmptyString]
           | piece :: pieces => String c piece :: pieces
           end
  end.

(** [self.updated_time.strftime('%Y-%m-%dT%H:%M:%S') != new_updated_time.split('+')[0]],
    the body shared by the [is_updated] methods.  [strftime] is the
    library's formatter, taken as a parameter; [None] stands for the
    [IndexError] of [[0]] on an empty list. *)
Definition differs_from_json (strftime : datetime -> string -> string)
           (updated_time : datetime) (new_updated_time : string) : option bool :=
  match split "+"%char new_updated_time with
  | [] => None
  | head :: _ =>
      Some (negb (String.eqb (strftime updated_time "%Y-%m-%dT%H:%M:%S") head))
  end.

Module Group.
Definition is_updated (strftime : datetime -> string -> string)
           (self : Group) (new_updated_time : string) : option bool :=
  differs_from_json strftime (Group_updated_time self) new_updated_time.

Definition get_diff_time (self : Group) : M string :=
  get_different_time (Group_updated_time self).

(** [number / 1000] is a true division and [int] truncates it towards
    zero; the result is a string above 1000 and the number itself
    otherwise.  The quotient is taken exactly, which the float division
    of the source agrees with for numbers below 2^52. *)
Definition get_unit (number : Z) : string + Z :=
  if number >? 1000 then inl (str (Z.quot number 1000) ++ "K")%string
  else inr number.

Definition get_post_count_unit (self : Group) : string + Z :=
  get_unit (Group_post_count self).

Definition get_comment_count_unit (self : Group) : string + Z :=
  get_unit (Group_comment_count self).
End Group.

Module FBUser.
Definition is_update (self : FBUser) : M bool :=
  t <- timezone_now ;;
  let diff := t - FBUser_updated_time self in
  if days diff >=? 1 then ret true else ret false.
End FBUser.

Module Post.
Definition is_updated (strftime : datetime -> string -> string)
           (self : Post) (new_updated_time : string) : option bool :=
  differs_from_json strftime (Post_updated_time self) new_updated_time.

Definition get_diff_cre_time (self : Post) : M string :=
  get_different_time (Post_created_time self).

Definition get_diff_upe_time (self : Post) : M string :=
  get_different_time (Post_updated_time self).
End Post.

Module Comment.
Definition get_diff_cre_time (self : Comment) : M string :=
  get_different_time (Comment_created_time self).
End Comment.

(** ** Tombstones *)

Module DeletedPost.
Definition create (post : Post) : DeletedPost :=
  {| DeletedPost_id := Post_id post;
     DeletedPost_user := Post_user post;
     DeletedPost_created_time := Post_created_time post;
     DeletedPost_updated_time := Post_updated_time post;
     DeletedPost_message := Post_message post;
     DeletedPost_picture := Post_picture post;
     DeletedPost_comment_count := Post_comment_count post;
     DeletedPost_like_count := Post_like_count post;
     DeletedPost_share_count := Post_share_count post;
     DeletedPost_group := Post_group post |}.
End DeletedPost.

Module DeletedComment.
Definition create (comment : Comment) : DeletedComment :=
  let parent :=
    match Comment_parent comment with
    | Some p => Some (Comment_id p)
    | None => None
    end in
  {| DeletedComment_id := Comment_id comment;
     DeletedComment_user := Comment_user comment;
     DeletedComment_created_time := Comment_created_time comment;
     DeletedComment_message := Comment_message comment;
     DeletedComment_like_count := Comment_like_count comment;
     DeletedComment_comment_count := Comment_comment_count comment;
     DeletedComment_post := Post_id (Comment_post comment);
     DeletedComment_parent := parent;
     DeletedComment_group := Comment_group comment |}.
End DeletedComment.

(** ** [UserActivity] *)

Module UserActivity.
(** [filter(user=user, group=group)] *)
Definition of_ (user : FBUser) (group : Group) (r : UserActivity) : bool :=
  String.eqb (UserActivity_user r) (FBUser_id user)
  && String.eqb (UserActivity_group r) (Group_id group).

Definition set_post_count (n : Z) (r : UserActivity) : UserActivity :=
  {| UserActivity_user := UserActivity_user r;
     UserActivity_group := UserActivity_group r;
     UserActivity_post_count := n;
     UserActivity_comment_count := UserActivity_comment_count r |}.

Definition set_comment_count (n : Z) (r : UserActivity) : UserActivity :=
  {| UserActivity_user := UserActivity_user r;
     UserActivity_group := UserActivity_group r;
     UserActivity_post_count := UserActivity_post_count r;
     UserActivity_comment_count := n |}.

(** [UserActivity(user=user, group=group, post_count=.., comment_count=..)];
    a counter not given defaults to 0. *)
Definition new (user : FBUser) (group : Group) (post_count comment_count : Z) :=
  unsaved {| UserActivity_user := FBUser_id user;
             UserActivity_group := Group_id group;
             UserActivity_post_count := post_count;
             UserActivity_comment_count := comment_count |}.

Definition add_post_count (user : FBUser) (group : Group) : M unit :=
  found <- qs_exists (objects_filter (of_ user group)) ;;
  if negb found then
    save (new user group 1 0)
  else
    user_activity <- qs_getitem (objects_filter (of_ user group)) 0 ;;
    save (assign (fun r => set_post_count (UserActivity_post_count r + 1) r)
                 user_activity).

Definition add_comment_count (user : FBUser) (group : Group) : M unit :=
  found <- qs_exists (objects_filter (of_ user group)) ;;
  if negb found then
    save (new user group 0 1)
  else
    user_activity <- qs_getitem (objects_filter (of_ user group)) 0 ;;
    save (assign (fun r => set_comment_count (UserActivity_comment_count r + 1) r)
                 user_activity).

Definition sub_post_count (user : FBUser) (group : Group) : M unit :=
  found <- qs_exists (objects_filter (of_ user group)) ;;
  if negb found then
    save (new user group 0 0)
  else
    user_activity <- qs_getitem (objects_filter (of_ user group)) 0 ;;
    save (if UserActivity_post_count (fields user_activity) >? 0
          then assign (fun r => set_post_count (UserActivity_post_count r - 1) r)
                      user_activity
          else assign (set_post_count 0) user_activity).

Definition sub_comment_count (user : FBUser) (group : Group) : M unit :=
  found <- qs_exists (objects_filter (of_ user group)) ;;
  if negb found then
    save (new user group 0 0)
  else
    user_activity <- qs_getitem (objects_filter (of_ user group)) 0 ;;
    save (if UserActivity_comment_count (fields user_activity) >? 0
          then assign (fun r => set_comment_count (UserActivity_comment_count r - 1) r)
                      user_activity
          else assign (set_comment_count 0) user_activity).
End UserActivity.

(** *** The range of the counter columns

    [post_count] and [comment_count] are [IntegerField] columns.  The
    helpers above compute on Python integers, which are unbounded; the
    database stores a value only when it lies in the range of the
    column, from [- top - 1] to [top], where the top value [top] depends
    on the database (2147483647 is within the range of every database
    the framework supports).  A [save] whose row leaves the range is
    refused by the database: the call raises and nothing is stored.
    [within_column top call] is [call] run against such a database, for
    a store whose counters are in the range. *)

Definition IntegerField_max : Z := 2147483647.

Definition in_column (top n : Z) : bool := (- top - 1 <=? n) && (n <=? top).

Definition row_in_column (top : Z) (r : UserActivity) : bool :=
  in_column top (UserActivity_post_count r)
  && in_column top (UserActivity_comment_count r).

Definition counters_in_column (top : Z) (db : DB) : bool :=
  forallb (fun x => row_in_column top (snd x)) (rows (UserActivity_objects db)).

Definition within_column {A} (top : Z) (call : M A) : M A := fun db =>
  match call db with
  | Ok a db' => if counters_in_column top db' then Ok a db' else Raise DataError
  | Raise e => Raise e
  end.

(** ** [GroupStatisticsUpdateList] *)

Module GroupStatisticsUpdateList.
(** [filter(group=group, method=method)] *)
Definition of_ (group : Group) (method : string) (r : GroupStatisticsUpdateList) : bool :=
  String.eqb (GroupStatisticsUpdateList_group r) (Group_id group)
  && String.eqb (GroupStatisticsUpdateList_method r) method.

(** [GroupStatisticsUpdateList(group=group, method=method)]; the
    [updated_time] of the instance is filled in when it is inserted. *)
Definition new (group : Group) (method : string) : Instance GroupStatisticsUpdateList :=
  unsaved {| GroupStatisticsUpdateList_group := Group_id group;
             GroupStatisticsUpdateList_method := method;
             GroupStatisticsUpdateList_updated_time := 0 |}.

Definition update (group : Group) (method : string) : M unit :=
  let oj := objects_filter (of_ group method) in
  '(found, oj) <- qs_bool oj ;;
  if (found : bool) then
    t <- timezone_now ;;
    oj <- qs_setattr oj 0 (set_updated_time t) ;;
    oj0 <- qs_getitem oj 0 ;;
    save oj0
  else
    save (new group method).

Definition is_update (self : Instance GroupStatisticsUpdateList) : M bool :=
  t <- timezone_now ;;
  let diff := t - GroupStatisticsUpdateList_updated_time (fields self) in
  if days diff >=? 1 then ret true else ret false.
End GroupStatisticsUpdateList.

(** ** The retention sweep *)

(** [filter(group=group, created_time__lt=date)] *)
Definition MonthPost_older (group : Group) (date : datetime) (r : MonthPost) : bool :=
  String.eqb (MonthPost_group r) (Group_id group) && (MonthPost_created_time r <? date).

Definition MonthComment_older (group : Group) (date : datetime) (r : MonthComment) : bool :=
  String.eqb (MonthComment_group r) (Group_id group) && (MonthComment_created_time r <? date).

Definition check (group : Group) : M unit :=
  let update_list := objects_filter (GroupStatisticsUpdateList.of_ group "month_content") in
  '(found, update_list) <- qs_bool update_list ;;
  is_update <- (if (found : bool) then
                  gate <- qs_getitem update_list 0 ;;
                  GroupStatisticsUpdateList.is_update gate
                else
                  GroupStatisticsUpdateList.update group "month_content" ;;
                  ret false) ;;
  if (is_update : bool) then
    t <- timezone_now ;;
    let date := t - timedelta_of_days 30 in
    '(posts, _) <- qs_iter (objects_filter (MonthPost_older group date)) ;;
    for_each posts delete ;;
    '(comments, _) <- qs_iter (objects_filter (MonthComment_older group date)) ;;
    for_each comments delete ;;
    GroupStatisticsUpdateList.update group "month_content"
  else ret tt.

Module MonthPost.
(** [filter(post=post)] *)
Definition of_post (post : Post) (r : MonthPost) : bool :=
  String.eqb (MonthPost_post r) (Post_id post).

(** [cls(created_time=post.created_time, group=post.group, post=post)] *)
Definition new (post : Post) : MonthPost :=
  {| MonthPost_created_time := Post_created_time post;
     MonthPost_group := Group_id (Post_group post);
     MonthPost_post := Post_id post |}.

Definition create (post : Post) : M unit :=
  check (Post_group post) ;;
  found <- qs_exists (objects_filter (of_post post)) ;;
  if (found : bool) then ret tt
  else save (unsaved (new post)).

Definition is_overtime (self : Instance MonthPost) : M bool :=
  t <- timezone_now ;;
  let diff := t - MonthPost_created_time (fields self) in
  if days diff >? 30 then ret true else ret false.
End MonthPost.

Module MonthComment.
(** [filter(comment=comment)] *)
Definition of_comment (comment : Comment) (r : MonthComment) : bool :=
  String.eqb (MonthComment_comment r) (Comment_id comment).

(** [cls(created_time=comment.created_time, group=comment.group, comment=comment)] *)
Definition new (comment : Comment) : MonthComment :=
  {| MonthComment_created_time := Comment_created_time comment;
     MonthComment_group := Group_id (Comment_group comment);
     MonthComment_comment := Comment_id comment |}.

Definition create (comment : Comment) : M unit :=
  check (Comment_group comment) ;;
  found <- qs_exists (objects_filter (of_comment comment)) ;;
  if (found : bool) then ret tt
  else save (unsaved (new comment)).

Definition is_overtime (self : Instance MonthComment) : M bool :=
  t <- timezone_now ;;
  let diff := t - MonthComment_created_time (fields self) in
  if days diff >? 30 then ret true else ret false.
End MonthComment.

(** ** Vocabulary of the statements *)

(** Each class reads and writes its own table of the store, and nothing
    else. *)
Class ModelLaws (F : Type) `{Model F} : Prop := {
  objects_set_objects : forall t db, objects (set_objects t db) = t;
  set_objects_objects : forall db, set_objects (objects db) db = db;
  set_objects_twice : forall t t' db,
      set_objects t (set_objects t' db) = set_objects t db;
  now_set_objects : forall t db, now (set_objects t db) = now db }.

(** The primary-key constraint of a table: keys are pairwise distinct and
    were all handed out by the auto-increment sequence. *)
Definition well_keyed {F} (t : Table F) : Prop :=
  NoDup (map fst (rows t)) /\ Forall (fun x => fst x < next_id t) (rows t).

(** Number of rows of a table that satisfy [p]. *)
Definition count {F} (p : F -> bool) (t : Table F) : nat :=
  List.length (matching p t).

(** The gate row of [(group, method)]: the row [filter(group=..,
    method=..)[0]] yields, which is the one [update] writes and [check]
    consults. *)
Definition gate (group : Group) (method : string) (db : DB)
  : option (Z * GroupStatisticsUpdateList) :=
  hd_error (matching (GroupStatisticsUpdateList.of_ group method)
                     (GroupStatisticsUpdateList_objects db)).

(** A gate row as [update] inserts it, and the effect on the table of
    writing the timestamp [t] into the gate row [(i, f)]. *)
Definition gate_row (group : Group) (method : string) (t : datetime)
  : GroupStatisticsUpdateList :=
  {| GroupStatisticsUpdateList_group := Group_id group;
     GroupStatisticsUpdateList_method := method;
     GroupStatisticsUpdateList_updated_time := t |}.

Definition touched (i : Z) (f : GroupStatisticsUpdateList) (t : datetime)
           (l : list (Z * GroupStatisticsUpdateList)) :=
  map (fun x => if has_pk i x then (i, set_updated_time t f) else x) l.

(** The store with its gate table replaced. *)
Definition with_gates (t : Table GroupStatisticsUpdateList) (db : DB) : DB :=
  set_objects t db.

(** The cooldown predicate of [is_update], as a function of the clock
    and of the stored timestamp. *)
Definition due (t : datetime) (r : GroupStatisticsUpdateList) : bool :=
  days (t - GroupStatisticsUpdateList_updated_time r) >=? 1.

(** The counters of a [(user, group)] pair, read from the row the
    helpers use (the first of the pair), a missing row counting as 0. *)
Definition counter_of (field : UserActivity -> Z) (user : FBUser) (group : Group)
           (db : DB) : Z :=
  match matching (UserActivity.of_ user group) (UserActivity_objects db) with
  | [] => 0
  | x :: _ => field (snd x)
  end.

Definition post_count_of := counter_of UserActivity_post_count.
Definition comment_count_of := counter_of UserActivity_comment_count.

(** The shape shared by the four counter helpers: append [fresh] when
    the pair has no row, else rewrite the first row of the pair with
    [change] and write it back under its key. *)
Definition upsert_counter (user : FBUser) (group : Group) (fresh : UserActivity)
           (change : UserActivity -> UserActivity) (db : DB) : DB :=
  let t := UserActivity_objects db in
  set_objects
    (match matching (UserActivity.of_ user group) t with
     | [] => {| rows := rows t ++ [(next_id t, fresh)]; next_id := next_id t + 1 |}
     | (i, f) :: _ =>
         {| rows := map (fun x => if has_pk i x then (i, change f) else x) (rows t);
            next_id := next_id t |}
     end) db.

Definition nonnegative_counters (db : DB) : Prop :=
  Forall (fun x => 0 <= UserActivity_post_count (snd x)
                   /\ 0 <= UserActivity_comment_count (snd x))
         (rows (UserActivity_objects db)).

(** A call of one of the four counter helpers. *)
Inductive activity_call :=
| Add_post_count (user : FBUser) (group : Group)
| Add_comment_count (user : FBUser) (group : Group)
| Sub_post_count (user : FBUser) (group : Group)
| Sub_comment_count (user : FBUser) (group : Group).

Definition run_activity_call (c : activity_call) : M unit :=
  match c with
  | Add_post_count u g => UserActivity.add_post_count u g
  | Add_comment_count u g => UserActivity.add_comment_count u g
  | Sub_post_count u g => UserActivity.sub_post_count u g
  | Sub_comment_count u g => UserActivity.sub_comment_count u g
  end.

(** A table after the rows selected by [p] were deleted one by one, each
    by its primary key. *)
Definition swept {F} (p : F -> bool) (t : Table F) : Table F :=
  {| rows := filter (fun x => negb (existsb (fun v => has_pk (fst v) x) (matching p t)))
                    (rows t);
     next_id := next_id t |}.

(** The store [check(group)] leaves behind. *)
Definition check_result (group : Group) (db : DB) : DB :=
  match gate group "month_content" db with
  | None =>
      with_gates
        {| rows := rows (GroupStatisticsUpdateList_objects db)
                   ++ [(next_id (GroupStatisticsUpdateList_objects db),
                        gate_row group "month_content" (now db))];
           next_id := next_id (GroupStatisticsUpdateList_objects db) + 1 |} db
  | Some (i, f) =>
      if due (now db) f then
        {| now := now db;
           UserActivity_objects := UserActivity_objects db;
           GroupStatisticsUpdateList_objects :=
             {| rows := touched i f (now db) (rows (GroupStatisticsUpdateList_objects db));
                next_id := next_id (GroupStatisticsUpdateList_objects db) |};
           MonthPost_objects :=
             swept (MonthPost_older group (now db - timedelta_of_days 30))
                   (MonthPost_objects db);
           MonthComment_objects :=
             swept (MonthComment_older group (now db - timedelta_of_days 30))
                   (MonthComment_objects db) |}
      else db
  end.

(** The store after "insert [f] unless a row selected by [p] exists". *)
Definition inserted_unless {F} `{Model F} (p : F -> bool) (f : F) (db : DB) : DB :=
  if nonempty (matching p (objects db)) then db
  else set_objects {| rows := rows (objects db) ++ [(next_id (objects db), f)];
                      next_id := next_id (objects db) + 1 |} db.

(** The gate of the sweep is closed: it has a row, which is not due. *)
Definition settled (group : Group) (db : DB) : Prop :=
  exists i f, gate group "month_content" db = Some (i, f) /\ due (now db) f = false.

(** The gate of the sweep is open: it has a row, which is due. *)
Definition sweep_due (group : Group) (db : DB) : bool :=
  match gate group "month_content" db with
  | Some (_, f) => due (now db) f
  | None => false
  end.

(** Calls that reach the shadow tables or the gate, and time passing. *)
Inductive month_call :=
| Check (group : Group)
| Create_post (post : Post)
| Create_comment (comment : Comment)
| Touch (group : Group) (method : string)
| Wait (dt : timedelta).

Definition run_month_call (c : month_call) : M unit :=
  match c with
  | Check g => check g
  | Create_post p => MonthPost.create p
  | Create_comment c => MonthComment.create c
  | Touch g m => GroupStatisticsUpdateList.update g m
  | Wait dt => fun db => Ok tt (advance dt db)
  end.

(** The group whose sweep a call runs, if it runs one. *)
Definition checked_group (c : month_call) : option Group :=
  match c with
  | Check g => Some g
  | Create_post p => Some (Post_group p)
  | Create_comment c => Some (Comment_group c)
  | Touch _ _ | Wait _ => None
  end.

(** [c], called in [db], runs a due sweep for the group [group]. *)
Definition sweeps (group : string) (c : month_call) (db : DB) : bool :=
  match checked_group c with
  | Some g => String.eqb (Group_id g) group && sweep_due g db
  | None => false
  end.

(** No call of the sequence, run from [db], runs a due sweep for [group]. *)
Fixpoint quiet (group : string) (calls : list month_call) (db : DB) : Prop :=
  match calls with
  | [] => True
  | c :: rest =>
      sweeps group c db = false
      /\ match run_month_call c db with
         | Ok _ db' => quiet group rest db'
         | Raise _ => True
         end
  end.

(** The shape of an upsert on a table: append [fresh] under the next
    key when [p] selects no row, else overwrite the first selected row,
    under its key, by its fields changed by [change]. *)
Definition upsert_table {F} (p : F -> bool) (fresh : F) (change : F -> F)
           (t : Table F) : Table F :=
  match matching p t with
  | [] => {| rows := rows t ++ [(next_id t, fresh)]; next_id := next_id t + 1 |}
  | (i, f) :: _ =>
      {| rows := map (fun x => if has_pk i x then (i, change f) else x) (rows t);
         next_id := next_id t |}
  end.

(** No pair has two rows of counters; no key has two gate rows. *)
Definition one_row_per_pair (db : DB) : Prop :=
  forall (user : FBUser) (group : Group),
    (count (UserActivity.of_ user group) (UserActivity_objects db) <= 1)%nat.

Definition one_row_per_key (db : DB) : Prop :=
  forall (group : Group) (method : string),
    (count (GroupStatisticsUpdateList.of_ group method)
           (GroupStatisticsUpdateList_objects db) <= 1)%nat.

(** The one-to-one constraints of the shadow tables. *)
Definition one_to_one_posts (db : DB) : Prop :=
  NoDup (map (fun x => MonthPost_post (snd x)) (rows (MonthPost_objects db))).

Definition one_to_one_comments (db : DB) : Prop :=
  NoDup (map (fun x => MonthComment_comment (snd x)) (rows (MonthComment_objects db))).

(** [c] occurs in [s]. *)
Fixpoint occurs (c : ascii) (s : string) : bool :=
  match s with
  | EmptyString => false
  | String c' s' => Ascii.eqb c' c || occurs c s'
  end.

(** The pair a counter call is about. *)
Definition call_pair (c : activity_call) : FBUser * Group :=
  match c with
  | Add_post_count u g | Add_comment_count u g
  | Sub_post_count u g | Sub_comment_count u g => (u, g)
  end.

(** Two pairs that differ in the user or in the group. *)
Definition other_pair (user : FBUser) (group : Group) (user' : FBUser) (group' : Group)
  : Prop :=
  FBUser_id user <> FBUser_id user' \/ Group_id group <> Group_id group'.

(** A counter call against a database whose counter columns have the
    top value [top]. *)
Definition run_activity_call_within (top : Z) (c : activity_call) : M unit :=
  within_column top (run_activity_call c).

(** Every counter of the store is at most [b]. *)
Definition counters_at_most (b : Z) (db : DB) : Prop :=
  Forall (fun x => UserActivity_post_count (snd x) <= b
                   /\ UserActivity_comment_count (snd x) <= b)
         (rows (UserActivity_objects db)).

(** Up to 2^32 seconds the float of [total_seconds()] and the float
    operations on it agree with the exact arithmetic of
    [get_different_time]; below 2^52 the float division of [get_unit]
    agrees with the exact quotient. *)
Definition exact_seconds_bound : Z := 4294967296.
Definition exact_division_bound : Z := 4503599627370496.

(** Sample data for the closed instances below. *)
Module Sample.
Definition empty {F} : Table F := {| rows := []; next_id := 1 |}.

Definition db_at (t : datetime) : DB :=
  {| now := t;
     UserActivity_objects := empty;
     GroupStatisticsUpdateList_objects := empty;
     MonthPost_objects := empty;
     MonthComment_objects := empty |}.

Definition alice : FBUser :=
  {| FBUser_id := "u1"; FBUser_name := "alice"; FBUser_picture := None;
     FBUser_updated_time := 0 |}.

Definition club : Group :=
  {| Group_id := "g1"; Group_name := "club"; Group_description := None;
     Group_updated_time := 0; Group_privacy := "OPEN"; Group_is_stored := true;
     Group_post_count := 0; Group_comment_count := 0; Group_owner := None |}.

Definition post_at (id : string) (t : datetime) : Post :=
  {| Post_id := id; Post_user := alice; Post_created_time := t;
     Post_updated_time := t; Post_message := None; Post_picture := None;
     Post_comment_count := 0; Post_like_count := 0; Post_share_count := 0;
     Post_group := club; Post_is_show := true |}.

(** A store in which alice's post counter for the club is -1. *)
Definition db_in_debt : DB :=
  {| now := 0;
     UserActivity_objects :=
       {| rows := [(1, {| UserActivity_user := "u1"; UserActivity_group := "g1";
                          UserActivity_post_count := -1;
                          UserActivity_comment_count := 0 |})];
          next_id := 2 |};
     GroupStatisticsUpdateList_objects := empty;
     MonthPost_objects := empty;
     MonthComment_objects := empty |}.

(** A store in which alice's post counter for the club is at the top
    value [top] of the column. *)
Definition db_full (top : Z) : DB :=
  {| now := 0;
     UserActivity_objects :=
       {| rows := [(1, {| UserActivity_user := "u1"; UserActivity_group := "g1";
                          UserActivity_post_count := top;
                          UserActivity_comment_count := 0 |})];
          next_id := 2 |};
     GroupStatisticsUpdateList_objects := empty;
     MonthPost_objects := empty;
     MonthComment_objects := empty |}.

Definition shadow (t : datetime) (group post : string) : MonthPost :=
  {| MonthPost_created_time := t; MonthPost_group := group; MonthPost_post := post |}.

(** A store whose sweep gate for the club was stamped 100 days ago,
    with an old and a young shadow post of the club ("g1") and an old
    one of another group ("g2"). *)
Definition db_due : DB :=
  {| now := 100 * day;
     UserActivity_objects := empty;
     GroupStatisticsUpdateList_objects :=
       {| rows := [(1, gate_row club "month_content" 0)]; next_id := 2 |};
     MonthPost_objects :=
       {| rows := [(1, shadow 0 "g1" "p1"); (2, shadow (99 * day) "g1" "p2");
                   (3, shadow 0 "g2" "p3")];
          next_id := 4 |};
     MonthComment_objects := empty |}.
End Sample.

(** * Properties *)

(** ** The time-difference formatter *)

Lemma div_positive (d k : Z) : 0 <= d -> 0 < k -> (d / k >? 0) = (d >=? k).
Proof.
  intros Hd Hk. rewrite Z.gtb_ltb, Z.geb_leb.
  destruct (Z.leb_spec k d) as [Hle | Hlt].
  - apply Z.ltb_lt. apply Z.div_str_pos. lia.
  - apply Z.ltb_ge. rewrite Z.div_small; lia.
Qed.

Lemma seconds_constants :
  3600 * second = hour /\ 60 * second = minute /\
  0 < second /\ 0 < minute /\ 0 < hour /\ 0 < day /\
  minute < hour /\ hour < day.
Proof. unfold hour, minute, day, second. lia. Qed.

(** C7.  For a time that lies [d >= 0] in the past, [get_different_time]
    returns the whole number of days followed by "days" when [d] is at
    least one day, otherwise the whole number of hours followed by
    "hours" when [d] is at least one hour, otherwise the whole number of
    minutes followed by "mins" when [d] is at least one minute, and
    otherwise the whole number of seconds followed by "secs". *)
Theorem get_different_time_coarsest_unit (db : DB) (d : timedelta) :
  0 <= d ->
  get_different_time (now db - d) db =
  Ok (if d >=? day then str (d / day) ++ "days"
      else if d >=? hour then str (d / hour) ++ "hours"
      else if d >=? minute then str (d / minute) ++ "mins"
      else str (d / second) ++ "secs")%string db.
Proof.
  intros Hd.
  destruct seconds_constants as (Eh & Em & Hs & Hm & Hh & Hday & Hmh & Hhd).
  unfold get_different_time, bind, timezone_now, ret, divmod, total_seconds, days, int.
  replace (now db - (now db - d)) with d by lia.
  rewrite Eh, Em.
  rewrite !div_positive by (try apply Z.mod_pos_bound; lia).
  destruct (Z.geb_spec d day) as [Hd1 | Hd1]; [reflexivity |].
  destruct (Z.geb_spec d hour) as [Hd2 | Hd2]; [reflexivity |].
  rewrite (Z.mod_small d hour) by lia.
  destruct (Z.geb_spec d minute) as [Hd3 | Hd3]; [reflexivity |].
  rewrite (Z.mod_small d minute) by lia.
  rewrite Z.quot_div_nonneg by lia.
  reflexivity.
Qed.

Lemma get_different_time_coarsest_unit_witness :
  get_different_time (now (Sample.db_at (100 * day)) - (3 * hour + 5 * minute))
                     (Sample.db_at (100 * day))
  = Ok "3hours" (Sample.db_at (100 * day)).
Proof.
  exact (get_different_time_coarsest_unit (Sample.db_at (100 * day))
           (3 * hour + 5 * minute) ltac:(vm_compute; discriminate)).
Defined.

(** C8, as the code has it.  For the current time itself the result is
    "0secs".  For a time that is not in the past, and at most 2^32
    seconds ahead of the clock, the elapsed duration is reduced modulo
    one hour (floor, so to [r] with [0 <= r < 1 hour]), and the result
    is the whole minutes of [r] followed by "mins" when that number is
    positive and the whole seconds of [r] followed by "secs"
    otherwise. *)
Theorem get_different_time_not_past (db : DB) :
  get_different_time (now db) db = Ok "0secs" db
  /\ forall time : datetime,
       now db <= time ->
       time - now db <= exact_seconds_bound * second ->
       get_different_time time db =
       Ok (let r := (now db - time) mod hour in
           if r / minute >? 0 then str (r / minute) ++ "mins"
           else str ((r mod minute) / second) ++ "secs")%string db.
Proof.
  destruct seconds_constants as (Eh & Em & Hs & Hm & Hh & Hday & Hmh & Hhd).
  assert (G : forall time : datetime,
             now db <= time ->
             get_different_time time db =
             Ok (let r := (now db - time) mod hour in
                 if r / minute >? 0 then str (r / minute) ++ "mins"
                 else str ((r mod minute) / second) ++ "secs")%string db).
  { intros time Ht.
    unfold get_different_time, bind, timezone_now, ret, divmod, total_seconds, days, int.
    rewrite Eh, Em. cbv zeta.
    assert (H1 : ((now db - time) / day >? 0) = false).
    { rewrite Z.gtb_ltb. apply Z.ltb_ge.
      apply Z.div_le_upper_bound; lia. }
    assert (H2 : ((now db - time) / hour >? 0) = false).
    { rewrite Z.gtb_ltb. apply Z.ltb_ge.
      apply Z.div_le_upper_bound; lia. }
    rewrite H1, H2.
    rewrite Z.quot_div_nonneg by (try apply Z.mod_pos_bound; lia).
    destruct ((now db - time) mod hour / minute >? 0); reflexivity. }
  split; [| intros time Ht _; now apply G].
  rewrite (G (now db)) by lia.
  replace (now db - now db) with 0 by lia. reflexivity.
Qed.

Lemma get_different_time_not_past_witness :
  get_different_time second (Sample.db_at 0) = Ok "59mins" (Sample.db_at 0).
Proof.
  exact (proj2 (get_different_time_not_past (Sample.db_at 0)) second
           ltac:(vm_compute; discriminate) ltac:(vm_compute; discriminate)).
Defined.

(** C8 as stated fails: for a time one second ahead of the clock the
    result is "59mins", not "0secs". *)
Lemma get_different_time_future_counterexample :
  get_different_time (now (Sample.db_at 0) + second) (Sample.db_at 0)
    = Ok "59mins" (Sample.db_at 0)
  /\ ~ (forall (db : DB) (time : datetime),
          now db <= time -> get_different_time time db = Ok "0secs" db).
Proof.
  split; [reflexivity |].
  intros H.
  specialize (H (Sample.db_at 0) second ltac:(vm_compute; discriminate)).
  vm_compute in H. discriminate H.
Qed.

(** ** Tombstones *)

(** C9.  [DeletedPost.create] copies the ten snapshot fields of the post;
    [DeletedComment.create] copies the seven snapshot fields of the
    comment, stores the identifier of the comment's post, and stores the
    identifier of the parent comment when there is one and [None]
    otherwise. *)
Theorem tombstone_create_copies :
  (forall p : Post,
      let d := DeletedPost.create p in
      DeletedPost_id d = Post_id p
      /\ DeletedPost_user d = Post_user p
      /\ DeletedPost_created_time d = Post_created_time p
      /\ DeletedPost_updated_time d = Post_updated_time p
      /\ DeletedPost_message d = Post_message p
      /\ DeletedPost_picture d = Post_picture p
      /\ DeletedPost_comment_count d = Post_comment_count p
      /\ DeletedPost_like_count d = Post_like_count p
      /\ DeletedPost_share_count d = Post_share_count p
      /\ DeletedPost_group d = Post_group p)
  /\ (forall c : Comment,
      let d := DeletedComment.create c in
      DeletedComment_id d = Comment_id c
      /\ DeletedComment_user d = Comment_user c
      /\ DeletedComment_created_time d = Comment_created_time c
      /\ DeletedComment_message d = Comment_message c
      /\ DeletedComment_like_count d = Comment_like_count c
      /\ DeletedComment_comment_count d = Comment_comment_count c
      /\ DeletedComment_group d = Comment_group c
      /\ DeletedComment_post d = Post_id (Comment_post c)
      /\ match Comment_parent c with
         | Some parent => DeletedComment_parent d = Some (Comment_id parent)
         | None => DeletedComment_parent d = None
         end).
Proof.
  split.
  - intros p d. subst d. unfold DeletedPost.create. cbn. repeat split.
  - intros c d. subst d. unfold DeletedComment.create. cbn.
    repeat split. destruct (Comment_parent c); reflexivity.
Qed.

(** ** The store *)

#[export] Instance UserActivity_ModelLaws : ModelLaws UserActivity.
Proof. split; try reflexivity. intros []; reflexivity. Qed.

#[export] Instance GroupStatisticsUpdateList_ModelLaws : ModelLaws GroupStatisticsUpdateList.
Proof. split; try reflexivity. intros []; reflexivity. Qed.

#[export] Instance MonthPost_ModelLaws : ModelLaws MonthPost.
Proof. split; try reflexivity. intros []; reflexivity. Qed.

#[export] Instance MonthComment_ModelLaws : ModelLaws MonthComment.
Proof. split; try reflexivity. intros []; reflexivity. Qed.

Lemma existsb_never {A} (p : A -> bool) (l : list A) :
  (forall x, p x = false) -> existsb p l = false.
Proof.
  intros Hp. induction l as [| x l IH]; cbn; [reflexivity |].
  now rewrite Hp, IH.
Qed.

Lemma existsb_same {A} (p q : A -> bool) (l : list A) :
  (forall x, p x = q x) -> existsb p l = existsb q l.
Proof.
  intros Hpq. induction l as [| x l IH]; cbn; [reflexivity |].
  now rewrite Hpq, IH.
Qed.

Lemma filter_all {A} (p : A -> bool) (l : list A) :
  (forall x, In x l -> p x = true) -> filter p l = l.
Proof.
  induction l as [| x l IH]; cbn; intros Hp; [reflexivity |].
  rewrite (Hp x) by now left.
  f_equal. apply IH. intros y Hy. apply Hp. now right.
Qed.

Lemma filter_twice {A} (p q : A -> bool) (l : list A) :
  filter p (filter q l) = filter (fun x => q x && p x) l.
Proof.
  induction l as [| x l IH]; cbn; [reflexivity |].
  destruct (q x); cbn; [destruct (p x) |]; now rewrite IH.
Qed.

Lemma nonempty_existsb {A} (p : A -> bool) (l : list A) :
  nonempty (filter p l) = existsb p l.
Proof.
  induction l as [| x l IH]; cbn; [reflexivity |].
  destruct (p x); cbn; [reflexivity | exact IH].
Qed.

Lemma table_eta {F} (t : Table F) : {| rows := rows t; next_id := next_id t |} = t.
Proof. now destruct t. Qed.

(** Rows with pairwise distinct keys are determined by their key. *)
Lemma NoDup_key_inj {F} (l : list (Z * F)) (x y : Z * F) :
  NoDup (map fst l) -> In x l -> In y l -> fst x = fst y -> x = y.
Proof.
  induction l as [| z l IH]; cbn; intros Hnd Hx Hy E; [contradiction |].
  inversion Hnd as [| ? ? Hz Hnd']; subst.
  destruct Hx as [-> | Hx], Hy as [-> | Hy]; trivial.
  - exfalso. apply Hz. rewrite E. now apply in_map.
  - exfalso. apply Hz. rewrite <- E. now apply in_map.
  - now apply IH.
Qed.

Section OrmFacts.
Context {F : Type} `{ModelLaws F}.

Lemma has_pk_fst (x : Z * F) : has_pk (fst x) x = true.
Proof. apply Z.eqb_refl. Qed.

(** Saving a new instance appends it under the next key, unless a
    unique constraint refuses it. *)
Lemma save_unsaved (f : F) (db : DB) :
  existsb (fun x => unique_clash (pre_save true (now db) f) (snd x))
          (rows (objects db)) = false ->
  save (unsaved f) db =
  Ok tt (set_objects
           {| rows := rows (objects db)
                      ++ [(next_id (objects db), pre_save true (now db) f)];
              next_id := next_id (objects db) + 1 |} db).
Proof.
  intros Hu.
  unfold save, bind, timezone_now, nextval, sql_insert, unsaved. cbn.
  rewrite objects_set_objects. cbn. rewrite Hu.
  now rewrite set_objects_twice.
Qed.

(** Saving an instance whose row is stored overwrites that row. *)
Lemma save_stored (i : Z) (f : F) (db : DB) :
  existsb (has_pk i) (rows (objects db)) = true ->
  existsb (fun x => negb (has_pk i x)
                    && unique_clash (pre_save false (now db) f) (snd x))
          (rows (objects db)) = false ->
  save {| pk := Some i; fields := f |} db =
  Ok tt (set_objects
           {| rows := map (fun x => if has_pk i x
                                    then (i, pre_save false (now db) f) else x)
                          (rows (objects db));
              next_id := next_id (objects db) |} db).
Proof.
  intros Hi Hu.
  unfold save, bind, timezone_now, pk_exists, sql_update. cbn.
  now rewrite Hi, Hu.
Qed.

(** Deleting the instances of [l] one after the other removes the rows
    that carry one of their keys. *)
Lemma for_each_delete (l : list (Z * F)) (db : DB) :
  for_each (map loaded l) delete db =
  Ok tt (set_objects
           {| rows := filter (fun x => negb (existsb (fun v => has_pk (fst v) x) l))
                             (rows (objects db));
              next_id := next_id (objects db) |} db).
Proof.
  revert db. induction l as [| v l IH]; intros db.
  - cbn. unfold ret. rewrite filter_all by reflexivity.
    now rewrite table_eta, set_objects_objects.
  - cbn [map for_each]. unfold bind at 1. unfold delete at 1. cbn [loaded pk].
    rewrite IH, objects_set_objects, set_objects_twice. cbn [rows next_id].
    rewrite filter_twice. do 3 f_equal.
    apply filter_ext. intros x. cbn. now rewrite negb_orb.
Qed.

(** When keys are distinct, deleting the rows selected by [p] leaves
    exactly the rows that do not satisfy [p]. *)
Lemma delete_selected (p : F -> bool) (l : list (Z * F)) :
  NoDup (map fst l) ->
  filter (fun x => negb (existsb (fun v => has_pk (fst v) x)
                                 (filter (fun x => p (snd x)) l))) l
  = filter (fun x => negb (p (snd x))) l.
Proof.
  intros Hnd. apply filter_ext_in. intros x Hx. f_equal.
  destruct (p (snd x)) eqn:Hp.
  - apply existsb_exists. exists x. split; [| apply has_pk_fst].
    apply filter_In. now split.
  - apply not_true_is_false. intros He.
    apply existsb_exists in He. destruct He as (v & Hv & Hk).
    apply filter_In in Hv. destruct Hv as [Hv Hpv].
    apply Z.eqb_eq in Hk.
    assert (x = v) by (apply (NoDup_key_inj l); auto).
    subst v. congruence.
Qed.

(** After the first row selected by [p] is overwritten under its key
    by fields that [p] selects as well, it is still the first row
    selected. *)
Lemma head_overwritten (p : F -> bool) i f f' (l : list (Z * F)) rest :
  filter (fun x => p (snd x)) l = (i, f) :: rest ->
  p f' = true ->
  hd_error (filter (fun x => p (snd x))
                   (map (fun x => if has_pk i x then (i, f') else x) l))
  = Some (i, f').
Proof.
  intros Hm Hp. revert Hm.
  induction l as [| x l IH]; cbn [filter map]; [discriminate |].
  destruct (p (snd x)) eqn:Hx.
  - intros [= -> Hrest].
    replace (has_pk i (i, f)) with true by (symmetry; apply Z.eqb_refl).
    cbn [snd]. now rewrite Hp.
  - intros Hm. destruct (has_pk i x); cbn [snd].
    + now rewrite Hp.
    + rewrite Hx. now apply IH.
Qed.

Lemma matching_head_stored (p : F -> bool) (t : Table F) (x : Z * F) rest :
  matching p t = x :: rest ->
  existsb (has_pk (fst x)) (rows t) = true /\ In x (rows t) /\ p (snd x) = true.
Proof.
  intros Hm.
  assert (Hin : In x (matching p t)) by (rewrite Hm; now left).
  apply filter_In in Hin. destruct Hin as [Hin Hp].
  repeat split; trivial.
  apply existsb_exists. exists x. split; [assumption | apply has_pk_fst].
Qed.
End OrmFacts.

(** ** The refresh gate *)

Lemma gate_absent_matching (group : Group) (method : string) (db : DB) :
  gate group method db = None ->
  matching (GroupStatisticsUpdateList.of_ group method)
           (GroupStatisticsUpdateList_objects db) = [].
Proof.
  unfold gate. now destruct (matching _ _).
Qed.

Lemma gate_present_matching (group : Group) (method : string) (db : DB) x :
  gate group method db = Some x ->
  exists rest,
    matching (GroupStatisticsUpdateList.of_ group method)
             (GroupStatisticsUpdateList_objects db) = x :: rest.
Proof.
  unfold gate. destruct (matching _ _) as [| y rest]; cbn; [discriminate |].
  intros [= ->]. now exists rest.
Qed.

(** [update] when the key has no row: one row is appended, stamped with
    the clock. *)
Lemma update_absent (group : Group) (method : string) (db : DB) :
  gate group method db = None ->
  GroupStatisticsUpdateList.update group method db =
  Ok tt (with_gates
           {| rows := rows (GroupStatisticsUpdateList_objects db)
                      ++ [(next_id (GroupStatisticsUpdateList_objects db),
                           gate_row group method (now db))];
              next_id := next_id (GroupStatisticsUpdateList_objects db) + 1 |} db).
Proof.
  intros Hg. apply gate_absent_matching in Hg.
  unfold GroupStatisticsUpdateList.update, bind, qs_bool, fetch_all, bind,
    objects_filter, cached, sql_select, ret.
  cbn [result_cache where_ objects GroupStatisticsUpdateList_Model].
  rewrite Hg. cbn [map nonempty].
  unfold GroupStatisticsUpdateList.new.
  rewrite save_unsaved by (apply existsb_never; reflexivity).
  reflexivity.
Qed.

(** [update] when the key has a row: the first such row is stamped with
    the clock and written back under its key. *)
Lemma update_present (group : Group) (method : string) (db : DB) i f :
  gate group method db = Some (i, f) ->
  GroupStatisticsUpdateList.update group method db =
  Ok tt (with_gates
           {| rows := touched i f (now db) (rows (GroupStatisticsUpdateList_objects db));
              next_id := next_id (GroupStatisticsUpdateList_objects db) |} db).
Proof.
  intros Hg. apply gate_present_matching in Hg. destruct Hg as [rest Hm].
  destruct (matching_head_stored _ _ _ _ Hm) as (Hi & _ & _).
  unfold GroupStatisticsUpdateList.update, bind, qs_bool, fetch_all, bind,
    objects_filter, cached, sql_select, ret, timezone_now, qs_setattr, bind,
    qs_getitem, ret.
  cbn [result_cache where_ objects GroupStatisticsUpdateList_Model].
  rewrite Hm. cbn [map nonempty nth_error list_alter loaded assign pk fields fst snd].
  cbn [result_cache nth_error]. unfold assign, loaded. cbn [pk fields fst snd].
  cbn [fst] in Hi.
  rewrite save_stored.
  - reflexivity.
  - exact Hi.
  - apply existsb_never. intros x. apply andb_false_r.
Qed.

(** After a timestamp is written into the gate row, the gate row of the
    key is that row, with the new timestamp. *)
Lemma gate_touched (p : GroupStatisticsUpdateList -> bool) i f t l rest :
  filter (fun x => p (snd x)) l = (i, f) :: rest ->
  p (set_updated_time t f) = true ->
  hd_error (filter (fun x => p (snd x)) (touched i f t l))
  = Some (i, set_updated_time t f).
Proof. apply head_overwritten. Qed.

(** If the key has at most one row, every row of the key carries the new
    timestamp afterwards. *)
Lemma touched_current (p : GroupStatisticsUpdateList -> bool) i f t l x :
  filter (fun x => p (snd x)) l = [(i, f)] ->
  In x (touched i f t l) -> p (snd x) = true ->
  GroupStatisticsUpdateList_updated_time (snd x) = t.
Proof.
  intros Hm Hx Hp. unfold touched in Hx.
  apply in_map_iff in Hx. destruct Hx as (y & Hy & Hin).
  destruct (has_pk i y) eqn:Hk.
  - now subst x.
  - subst y.
    assert (Hf : In x (filter (fun x => p (snd x)) l)) by (apply filter_In; auto).
    rewrite Hm in Hf. destruct Hf as [<- | []].
    unfold has_pk in Hk. cbn in Hk. rewrite Z.eqb_refl in Hk. discriminate.
Qed.

Lemma matching_app {F} (p : F -> bool) (l : list (Z * F)) x n :
  matching p {| rows := l ++ [x]; next_id := n |}
  = (matching p {| rows := l; next_id := n |} ++ (if p (snd x) then [x] else []))%list.
Proof.
  unfold matching. cbn. rewrite filter_app. cbn. now destruct (p (snd x)).
Qed.

Lemma of_gate_row group method t :
  GroupStatisticsUpdateList.of_ group method (gate_row group method t) = true.
Proof.
  unfold GroupStatisticsUpdateList.of_, gate_row. cbn.
  now rewrite !String.eqb_refl.
Qed.

Lemma is_update_due (self : Instance GroupStatisticsUpdateList) (db : DB) :
  GroupStatisticsUpdateList.is_update self db = Ok (due (now db) (fields self)) db.
Proof.
  unfold GroupStatisticsUpdateList.is_update, bind, timezone_now, ret, due.
  now destruct (_ >=? 1).
Qed.

Lemma due_iff (t : datetime) (r : GroupStatisticsUpdateList) :
  due t r = (t - GroupStatisticsUpdateList_updated_time r >=? day).
Proof.
  unfold due, days.
  destruct seconds_constants as (_ & _ & _ & _ & _ & Hday & _).
  rewrite !Z.geb_leb.
  destruct (Z.leb_spec day (t - GroupStatisticsUpdateList_updated_time r)) as [Hle | Hlt].
  - apply Z.leb_le. apply Z.div_le_lower_bound; lia.
  - apply Z.leb_gt.
    assert ((t - GroupStatisticsUpdateList_updated_time r) / day < 1); [| lia].
    apply Z.div_lt_upper_bound; lia.
Qed.

(** The table [update] leaves behind. *)
Lemma update_table (group : Group) (method : string) (db : DB) :
  GroupStatisticsUpdateList.update group method db =
  Ok tt (with_gates
           (match gate group method db with
            | Some (i, f) =>
                {| rows := touched i f (now db)
                                   (rows (GroupStatisticsUpdateList_objects db));
                   next_id := next_id (GroupStatisticsUpdateList_objects db) |}
            | None =>
                {| rows := rows (GroupStatisticsUpdateList_objects db)
                           ++ [(next_id (GroupStatisticsUpdateList_objects db),
                                gate_row group method (now db))];
                   next_id := next_id (GroupStatisticsUpdateList_objects db) + 1 |}
            end) db).
Proof.
  destruct (gate group method db) as [[i f] |] eqn:Hg.
  - now apply update_present.
  - now apply update_absent.
Qed.

(** After [update] the key has a gate row, stamped with the clock. *)
Lemma update_gate (group : Group) (method : string) (db db' : DB) :
  GroupStatisticsUpdateList.update group method db = Ok tt db' ->
  exists i r,
    gate group method db' = Some (i, r)
    /\ GroupStatisticsUpdateList_updated_time r = now db
    /\ match gate group method db with
       | Some (j, f) => i = j /\ r = set_updated_time (now db) f
       | None => i = next_id (GroupStatisticsUpdateList_objects db)
                 /\ r = gate_row group method (now db)
       end.
Proof.
  rewrite update_table. intros [= <-].
  destruct (gate group method db) as [[i f] |] eqn:Hg.
  - exists i, (set_updated_time (now db) f). split; [| split; [reflexivity | now split]].
    destruct (gate_present_matching _ _ _ _ Hg) as [rest Hm].
    destruct (matching_head_stored _ _ _ _ Hm) as (_ & _ & Hp).
    unfold gate, with_gates. cbn.
    apply (gate_touched _ _ _ _ _ rest); [exact Hm | exact Hp].
  - exists (next_id (GroupStatisticsUpdateList_objects db)), (gate_row group method (now db)).
    split; [| split; [reflexivity | now split]].
    apply gate_absent_matching in Hg.
    unfold gate, with_gates. cbn -[matching]. rewrite matching_app.
    unfold matching in *. cbn. rewrite Hg, of_gate_row. reflexivity.
Qed.

(** When the key has at most one row before [update], every row of the
    key carries the clock afterwards. *)
Lemma update_stamps_key (group : Group) (method : string) (db db' : DB) x :
  GroupStatisticsUpdateList.update group method db = Ok tt db' ->
  (count (GroupStatisticsUpdateList.of_ group method)
         (GroupStatisticsUpdateList_objects db) <= 1)%nat ->
  In x (rows (GroupStatisticsUpdateList_objects db')) ->
  GroupStatisticsUpdateList.of_ group method (snd x) = true ->
  GroupStatisticsUpdateList_updated_time (snd x) = now db.
Proof.
  rewrite update_table. intros [= <-] Hc Hx Hp.
  unfold count in Hc.
  destruct (gate group method db) as [[i f] |] eqn:Hg.
  - destruct (gate_present_matching _ _ _ _ Hg) as [rest Hm].
    rewrite Hm in Hc. destruct rest; [| cbn in Hc; lia].
    cbn in Hx. eapply touched_current; eauto.
  - apply gate_absent_matching in Hg. cbn in Hx.
    apply in_app_or in Hx. destruct Hx as [Hx | [<- | []]]; [| reflexivity].
    assert (Hin : In x (matching (GroupStatisticsUpdateList.of_ group method)
                                 (GroupStatisticsUpdateList_objects db)))
      by (apply filter_In; auto).
    rewrite Hg in Hin. destruct Hin.
Qed.

Lemma nth_error_touched i f t l n x :
  nth_error l n = Some x -> fst x <> i -> nth_error (touched i f t l) n = Some x.
Proof.
  intros Hn Hk. unfold touched. rewrite nth_error_map, Hn. cbn.
  unfold has_pk. now destruct (Z.eqb_spec (fst x) i).
Qed.

(** C2.  [update(group, method)] always returns and changes nothing but
    the gate table.  If a row of the key exists, the gate row of the key
    (the first one, under key [i]) is stamped with the clock and stays
    the gate row; the table keeps its length, and every row under
    another primary key stays where it is, unchanged.  If no row of the
    key exists, the old rows are kept and one row of the key is
    appended, stamped with the clock, so that exactly one row of the key
    exists.  Whenever the key had at most one row, every row of the key
    carries the clock afterwards. *)
Theorem GroupStatisticsUpdateList_update_upsert
        (group : Group) (method : string) (db : DB) :
  let t := GroupStatisticsUpdateList_objects db in
  exists t' : Table GroupStatisticsUpdateList,
    GroupStatisticsUpdateList.update group method db = Ok tt (with_gates t' db)
    /\ match gate group method db with
       | Some (i, f) =>
           gate group method (with_gates t' db) = Some (i, set_updated_time (now db) f)
           /\ List.length (rows t') = List.length (rows t)
           /\ (forall n x, nth_error (rows t) n = Some x -> fst x <> i ->
                           nth_error (rows t') n = Some x)
       | None =>
           rows t' = (rows t ++ [(next_id t, gate_row group method (now db))])%list
           /\ count (GroupStatisticsUpdateList.of_ group method) t' = 1%nat
       end
    /\ ((count (GroupStatisticsUpdateList.of_ group method) t <= 1)%nat ->
        forall x, In x (rows t') ->
                  GroupStatisticsUpdateList.of_ group method (snd x) = true ->
                  GroupStatisticsUpdateList_updated_time (snd x) = now db).
Proof.
  intros t.
  pose proof (update_table group method db) as Hu.
  set (t' := match gate group method db with Some _ => _ | None => _ end) in Hu.
  exists t'. split; [exact Hu |]. split.
  - destruct (update_gate _ _ _ _ Hu) as (i & r & Hg' & _ & Hcase).
    destruct (gate group method db) as [[j f] |] eqn:Hg.
    + destruct Hcase as [-> ->]. split; [exact Hg' |].
      subst t'. cbn. split.
      * unfold touched. apply length_map.
      * intros n x. apply nth_error_touched.
    + subst t'. split; [reflexivity |].
      apply gate_absent_matching in Hg.
      unfold count. rewrite matching_app. unfold matching in *. cbn.
      rewrite Hg, of_gate_row. reflexivity.
  - intros Hc x Hx Hp.
    apply (update_stamps_key group method db (with_gates t' db) x); assumption.
Qed.

Lemma GroupStatisticsUpdateList_update_upsert_witness :
  exists t' : Table GroupStatisticsUpdateList,
    GroupStatisticsUpdateList.update Sample.club "month_content" (Sample.db_at 7)
    = Ok tt (with_gates t' (Sample.db_at 7))
    /\ forall x, In x (rows t') ->
                 GroupStatisticsUpdateList.of_ Sample.club "month_content" (snd x) = true ->
                 GroupStatisticsUpdateList_updated_time (snd x) = 7.
Proof.
  destruct (GroupStatisticsUpdateList_update_upsert
              Sample.club "month_content" (Sample.db_at 7)) as (t' & Hu & _ & Hkey).
  exists t'. split; [exact Hu |].
  apply Hkey. cbn. lia.
Defined.

(** C3.  After [update(group, method)] the key has a gate row stamped
    with the clock, whatever timestamp it carried before; [is_update] on
    it returns false at once and as long as less than a day has elapsed,
    and returns true from one elapsed day on.  Whenever the key had at
    most one row, [is_update] returns false on every row of the key
    right after the call.  For any row, [is_update] returns true exactly
    when at least one day has elapsed since its stored timestamp. *)
Theorem gate_not_due_after_update (group : Group) (method : string) (db : DB) :
  (exists db' i r,
      GroupStatisticsUpdateList.update group method db = Ok tt db'
      /\ gate group method db' = Some (i, r)
      /\ GroupStatisticsUpdateList.is_update (loaded (i, r)) db' = Ok false db'
      /\ (forall dt, dt < day ->
            GroupStatisticsUpdateList.is_update (loaded (i, r)) (advance dt db')
            = Ok false (advance dt db'))
      /\ (forall dt, day <= dt ->
            GroupStatisticsUpdateList.is_update (loaded (i, r)) (advance dt db')
            = Ok true (advance dt db'))
      /\ ((count (GroupStatisticsUpdateList.of_ group method)
                 (GroupStatisticsUpdateList_objects db) <= 1)%nat ->
          forall x, In x (rows (GroupStatisticsUpdateList_objects db')) ->
                    GroupStatisticsUpdateList.of_ group method (snd x) = true ->
                    GroupStatisticsUpdateList.is_update (loaded x) db' = Ok false db'))
  /\ (forall (self : Instance GroupStatisticsUpdateList) (db0 : DB),
         GroupStatisticsUpdateList.is_update self db0
         = Ok (now db0 - GroupStatisticsUpdateList_updated_time (fields self) >=? day) db0).
Proof.
  destruct seconds_constants as (_ & _ & _ & _ & _ & Hday & _).
  split.
  - pose proof (update_table group method db) as Hu.
    set (t' := match gate group method db with Some _ => _ | None => _ end) in Hu.
    destruct (update_gate _ _ _ _ Hu) as (i & r & Hg' & Hr & _).
    exists (with_gates t' db), i, r.
    split; [exact Hu |]. split; [exact Hg' |].
    assert (Hadv : forall dt,
               GroupStatisticsUpdateList.is_update (loaded (i, r)) (advance dt (with_gates t' db))
               = Ok (dt >=? day) (advance dt (with_gates t' db))).
    { intros dt. rewrite is_update_due, due_iff. cbn. rewrite Hr.
      do 2 f_equal. lia. }
    split; [| split; [| split]].
    + rewrite is_update_due, due_iff. cbn. rewrite Hr.
      replace (now db - now db) with 0 by lia.
      reflexivity.
    + intros dt Hdt. rewrite Hadv. f_equal. rewrite Z.geb_leb. now apply Z.leb_gt.
    + intros dt Hdt. rewrite Hadv. f_equal. rewrite Z.geb_leb. now apply Z.leb_le.
    + intros Hc x Hx Hp.
      rewrite is_update_due, due_iff. cbn [loaded fields snd].
      rewrite (update_stamps_key group method db (with_gates t' db) x Hu Hc Hx Hp).
      cbn. replace (now db - now db) with 0 by lia.
      reflexivity.
  - intros self db0. now rewrite is_update_due, due_iff.
Qed.

Lemma gate_not_due_after_update_witness :
  exists db' i r,
    GroupStatisticsUpdateList.update Sample.club "month_content" (Sample.db_at 7) = Ok tt db'
    /\ gate Sample.club "month_content" db' = Some (i, r)
    /\ GroupStatisticsUpdateList.is_update (loaded (i, r)) (advance (day - 1) db')
       = Ok false (advance (day - 1) db')
    /\ GroupStatisticsUpdateList.is_update (loaded (i, r)) (advance day db')
       = Ok true (advance day db').
Proof.
  destruct (proj1 (gate_not_due_after_update Sample.club "month_content" (Sample.db_at 7)))
    as (db' & i & r & Hu & Hg & _ & Hlt & Hge & _).
  exists db', i, r. repeat split; trivial.
  - apply Hlt. vm_compute. reflexivity.
  - apply Hge. vm_compute. intros H. discriminate H.
Defined.

(** ** The activity counters *)

Section Counters.
Variables (user : FBUser) (group : Group).

Lemma of_new (p c : Z) :
  UserActivity.of_ user group (fields (UserActivity.new user group p c)) = true.
Proof.
  unfold UserActivity.of_, UserActivity.new. cbn. now rewrite !String.eqb_refl.
Qed.

(** A helper that tests [exists()], creates [fresh] when the pair is
    missing and otherwise saves the first row changed by [change],
    performs [upsert_counter]. *)
Lemma upsert_counter_runs (fresh : UserActivity) (change : UserActivity -> UserActivity)
      (db : DB) :
  (found <- qs_exists (objects_filter (UserActivity.of_ user group)) ;;
   if negb found then save (unsaved fresh)
   else
     user_activity <- qs_getitem (objects_filter (UserActivity.of_ user group)) 0 ;;
     save (assign change user_activity)) db
  = Ok tt (upsert_counter user group fresh change db).
Proof.
  unfold upsert_counter, bind, qs_exists, qs_getitem, objects_filter, sql_select.
  cbn [result_cache where_ objects UserActivity_Model].
  destruct (matching (UserActivity.of_ user group) (UserActivity_objects db))
    as [| [i f] rest] eqn:Hm; cbn [nonempty negb map nth_error].
  - rewrite save_unsaved by (apply existsb_never; reflexivity). reflexivity.
  - destruct (matching_head_stored _ _ _ _ Hm) as (Hi & _ & _).
    unfold assign, loaded. cbn [fst] in Hi.
    rewrite Hm. cbn [map pk fields fst snd].
    rewrite save_stored; [reflexivity | exact Hi |].
    apply existsb_never. intros x. apply andb_false_r.
Qed.

Lemma add_post_count_upsert (db : DB) :
  UserActivity.add_post_count user group db =
  Ok tt (upsert_counter user group (fields (UserActivity.new user group 1 0))
           (fun r => UserActivity.set_post_count (UserActivity_post_count r + 1) r) db).
Proof. apply upsert_counter_runs. Qed.

Lemma add_comment_count_upsert (db : DB) :
  UserActivity.add_comment_count user group db =
  Ok tt (upsert_counter user group (fields (UserActivity.new user group 0 1))
           (fun r => UserActivity.set_comment_count (UserActivity_comment_count r + 1) r) db).
Proof. apply upsert_counter_runs. Qed.

Lemma sub_post_count_upsert (db : DB) :
  UserActivity.sub_post_count user group db =
  Ok tt (upsert_counter user group (fields (UserActivity.new user group 0 0))
           (fun r => if UserActivity_post_count r >? 0
                     then UserActivity.set_post_count (UserActivity_post_count r - 1) r
                     else UserActivity.set_post_count 0 r) db).
Proof.
  rewrite <- upsert_counter_runs. unfold UserActivity.sub_post_count, bind.
  destruct (qs_exists _ db) as [found db' | e]; [| reflexivity].
  destruct (negb found); [reflexivity |].
  destruct (qs_getitem _ 0 db') as [r db'' | e]; [| reflexivity].
  unfold assign. cbn.
  now destruct (UserActivity_post_count (fields r) >? 0).
Qed.

Lemma sub_comment_count_upsert (db : DB) :
  UserActivity.sub_comment_count user group db =
  Ok tt (upsert_counter user group (fields (UserActivity.new user group 0 0))
           (fun r => if UserActivity_comment_count r >? 0
                     then UserActivity.set_comment_count (UserActivity_comment_count r - 1) r
                     else UserActivity.set_comment_count 0 r) db).
Proof.
  rewrite <- upsert_counter_runs. unfold UserActivity.sub_comment_count, bind.
  destruct (qs_exists _ db) as [found db' | e]; [| reflexivity].
  destruct (negb found); [reflexivity |].
  destruct (qs_getitem _ 0 db') as [r db'' | e]; [| reflexivity].
  unfold assign. cbn.
  now destruct (UserActivity_comment_count (fields r) >? 0).
Qed.

(** The counters are non-negative after an upsert that creates and
    keeps them so. *)
Lemma upsert_counter_nonnegative fresh change (db : DB) :
  0 <= UserActivity_post_count fresh /\ 0 <= UserActivity_comment_count fresh ->
  (forall r, 0 <= UserActivity_post_count r /\ 0 <= UserActivity_comment_count r ->
             0 <= UserActivity_post_count (change r)
             /\ 0 <= UserActivity_comment_count (change r)) ->
  nonnegative_counters db ->
  nonnegative_counters (upsert_counter user group fresh change db).
Proof.
  intros Hfresh Hchange Hdb. unfold nonnegative_counters, upsert_counter in *.
  cbn [set_objects UserActivity_Model UserActivity_objects].
  destruct (matching (UserActivity.of_ user group) (UserActivity_objects db))
    as [| [i f] rest] eqn:Hm; cbn [rows].
  - apply Forall_app. split; [exact Hdb |]. now constructor.
  - destruct (matching_head_stored _ _ _ _ Hm) as (_ & Hin & _).
    rewrite Forall_forall in Hdb.
    apply Forall_forall. intros x Hx.
    apply in_map_iff in Hx. destruct Hx as (y & <- & Hy).
    destruct (has_pk i y); [| now apply Hdb].
    cbn [snd]. apply Hchange. exact (Hdb _ Hin).
Qed.

(** What a counter of the pair is after an upsert that leaves the
    pair of a row alone. *)
Lemma upsert_counter_field (field : UserActivity -> Z) fresh change (db : DB) :
  UserActivity.of_ user group fresh = true ->
  (forall r, UserActivity.of_ user group (change r) = UserActivity.of_ user group r) ->
  counter_of field user group (upsert_counter user group fresh change db)
  = match matching (UserActivity.of_ user group) (UserActivity_objects db) with
    | [] => field fresh
    | x :: _ => field (change (snd x))
    end.
Proof.
  intros Hfresh Hchange. unfold counter_of, upsert_counter.
  cbn [set_objects UserActivity_Model UserActivity_objects].
  destruct (matching (UserActivity.of_ user group) (UserActivity_objects db))
    as [| [i f] rest] eqn:Hm.
  - rewrite matching_app. unfold matching in *. cbn [rows snd].
    now rewrite Hm, Hfresh.
  - destruct (matching_head_stored _ _ _ _ Hm) as (_ & _ & Hp).
    assert (Hh := head_overwritten (UserActivity.of_ user group) i f (change f)
                    (rows (UserActivity_objects db)) rest Hm).
    rewrite Hchange in Hh. specialize (Hh Hp).
    unfold matching. cbn [rows].
    destruct (filter _ (map _ _)) as [| y l]; [discriminate |].
    cbn in Hh. now injection Hh as ->.
Qed.


(** A subtraction leaves the counter it touches non-negative, whatever
    it was. *)
Lemma sub_post_count_floor (db : DB) :
  0 <= post_count_of user group
         (upsert_counter user group (fields (UserActivity.new user group 0 0))
            (fun r => if UserActivity_post_count r >? 0
                      then UserActivity.set_post_count (UserActivity_post_count r - 1) r
                      else UserActivity.set_post_count 0 r) db)
  /\ (post_count_of user group db = 0 ->
      post_count_of user group
         (upsert_counter user group (fields (UserActivity.new user group 0 0))
            (fun r => if UserActivity_post_count r >? 0
                      then UserActivity.set_post_count (UserActivity_post_count r - 1) r
                      else UserActivity.set_post_count 0 r) db) = 0).
Proof.
  unfold post_count_of.
  rewrite upsert_counter_field; [| apply of_new | intros r; now destruct (_ >? 0)].
  unfold counter_of.
  destruct (matching _ _) as [| x rest]; cbn; [lia |].
  destruct (Z.gtb_spec (UserActivity_post_count (snd x)) 0); cbn; lia.
Qed.

Lemma sub_comment_count_floor (db : DB) :
  0 <= comment_count_of user group
         (upsert_counter user group (fields (UserActivity.new user group 0 0))
            (fun r => if UserActivity_comment_count r >? 0
                      then UserActivity.set_comment_count (UserActivity_comment_count r - 1) r
                      else UserActivity.set_comment_count 0 r) db)
  /\ (comment_count_of user group db = 0 ->
      comment_count_of user group
         (upsert_counter user group (fields (UserActivity.new user group 0 0))
            (fun r => if UserActivity_comment_count r >? 0
                      then UserActivity.set_comment_count (UserActivity_comment_count r - 1) r
                      else UserActivity.set_comment_count 0 r) db) = 0).
Proof.
  unfold comment_count_of.
  rewrite upsert_counter_field; [| apply of_new | intros r; now destruct (_ >? 0)].
  unfold counter_of.
  destruct (matching _ _) as [| x rest]; cbn; [lia |].
  destruct (Z.gtb_spec (UserActivity_comment_count (snd x)) 0); cbn; lia.
Qed.
End Counters.

Lemma activity_call_nonnegative (c : activity_call) (db : DB) :
  nonnegative_counters db ->
  exists db', run_activity_call c db = Ok tt db' /\ nonnegative_counters db'.
Proof.
  intros Hdb. destruct c as [u g | u g | u g | u g]; cbn [run_activity_call];
    eexists; (split;
      [ first [ apply add_post_count_upsert | apply add_comment_count_upsert
              | apply sub_post_count_upsert | apply sub_comment_count_upsert ]
      | apply upsert_counter_nonnegative; [cbn; lia | | exact Hdb] ]).
  - intros r [Hp Hc]. cbn. lia.
  - intros r [Hp Hc]. cbn. lia.
  - intros r [Hp Hc].
    destruct (Z.gtb_spec (UserActivity_post_count r) 0); cbn; lia.
  - intros r [Hp Hc].
    destruct (Z.gtb_spec (UserActivity_comment_count r) 0); cbn; lia.
Qed.

(** C4.  From a state whose counters are all non-negative, any finite
    sequence of [add_post_count], [add_comment_count], [sub_post_count]
    and [sub_comment_count] calls returns and leaves both counters of
    every row non-negative.  A subtraction for a pair that has no row
    appends a row for it with both counters 0; a subtraction always
    leaves the counter it touches non-negative, and leaves it at 0 when
    it was 0. *)
Theorem counters_never_negative :
  (forall (calls : list activity_call) (db : DB),
      nonnegative_counters db ->
      exists db',
        for_each calls run_activity_call db = Ok tt db' /\ nonnegative_counters db')
  /\ (forall (user : FBUser) (group : Group) (db : DB),
        let t := UserActivity_objects db in
        let zero := {| UserActivity_user := FBUser_id user;
                       UserActivity_group := Group_id group;
                       UserActivity_post_count := 0;
                       UserActivity_comment_count := 0 |} in
        matching (UserActivity.of_ user group) t = [] ->
        (exists db', UserActivity.sub_post_count user group db = Ok tt db'
                     /\ rows (UserActivity_objects db') = (rows t ++ [(next_id t, zero)])%list)
        /\ (exists db', UserActivity.sub_comment_count user group db = Ok tt db'
                        /\ rows (UserActivity_objects db') = (rows t ++ [(next_id t, zero)])%list))
  /\ (forall (user : FBUser) (group : Group) (db : DB),
        (exists db', UserActivity.sub_post_count user group db = Ok tt db'
                     /\ 0 <= post_count_of user group db'
                     /\ (post_count_of user group db = 0 -> post_count_of user group db' = 0))
        /\ (exists db', UserActivity.sub_comment_count user group db = Ok tt db'
                        /\ 0 <= comment_count_of user group db'
                        /\ (comment_count_of user group db = 0 ->
                            comment_count_of user group db' = 0))).
Proof.
  split; [| split].
  - induction calls as [| c calls IH]; intros db Hdb.
    + exists db. now split.
    + destruct (activity_call_nonnegative c db Hdb) as (db1 & Hrun & Hdb1).
      destruct (IH db1 Hdb1) as (db' & Hrest & Hdb').
      exists db'. split; [| exact Hdb'].
      cbn [for_each]. unfold bind. now rewrite Hrun.
  - intros user group db t zero Hm. split; eexists;
      (split; [first [apply sub_post_count_upsert | apply sub_comment_count_upsert] |]);
      unfold upsert_counter; fold t; rewrite Hm; reflexivity.
  - intros user group db. split; eexists;
      (split; [first [apply sub_post_count_upsert | apply sub_comment_count_upsert] |]).
    + apply sub_post_count_floor.
    + apply sub_comment_count_floor.
Qed.

Lemma counters_never_negative_witness :
  exists db',
    for_each [Sub_post_count Sample.alice Sample.club;
              Add_comment_count Sample.alice Sample.club;
              Sub_comment_count Sample.alice Sample.club;
              Sub_comment_count Sample.alice Sample.club]
             run_activity_call (Sample.db_at 0) = Ok tt db'
    /\ nonnegative_counters db'.
Proof.
  apply (proj1 counters_never_negative). constructor.
Defined.

(** *** The range of the counter columns *)

Lemma within_column_accepts {A} (top : Z) (call : M A) (db : DB) a db' :
  call db = Ok a db' -> counters_in_column top db' = true ->
  within_column top call db = Ok a db'.
Proof. intros Hc Hin. unfold within_column. now rewrite Hc, Hin. Qed.

Lemma within_column_refuses {A} (top : Z) (call : M A) (db : DB) a db' :
  call db = Ok a db' -> counters_in_column top db' = false ->
  within_column top call db = Raise DataError.
Proof. intros Hc Hin. unfold within_column. now rewrite Hc, Hin. Qed.

Lemma within_column_returned {A} (top : Z) (call : M A) (db : DB) a db' :
  within_column top call db = Ok a db' ->
  call db = Ok a db' /\ counters_in_column top db' = true.
Proof.
  unfold within_column. destruct (call db) as [a0 db0 | e]; [| discriminate].
  destruct (counters_in_column top db0) eqn:Hin; [| discriminate].
  intros [= -> ->]. now split.
Qed.

Lemma stored_row_in_column (top : Z) (db : DB) (x : Z * UserActivity) :
  counters_in_column top db = true ->
  In x (rows (UserActivity_objects db)) ->
  row_in_column top (snd x) = true.
Proof.
  unfold counters_in_column. intros Hdb Hx.
  rewrite forallb_forall in Hdb. now apply Hdb.
Qed.

Lemma in_column_iff (top n : Z) :
  in_column top n = true <-> - top - 1 <= n <= top.
Proof.
  unfold in_column. rewrite andb_true_iff, !Z.leb_le. tauto.
Qed.

Lemma row_in_column_iff (top : Z) (r : UserActivity) :
  row_in_column top r = true
  <-> (- top - 1 <= UserActivity_post_count r <= top)
      /\ (- top - 1 <= UserActivity_comment_count r <= top).
Proof.
  unfold row_in_column. rewrite andb_true_iff, !in_column_iff. tauto.
Qed.

(** An upsert keeps the counters in the range when the row it writes is
    in the range, and leaves the range when that row is not. *)
Lemma upsert_counter_in_column (top : Z) user group fresh change (db : DB) :
  counters_in_column top db = true ->
  match matching (UserActivity.of_ user group) (UserActivity_objects db) with
  | [] => row_in_column top fresh = true
  | x :: _ => row_in_column top (change (snd x)) = true
  end ->
  counters_in_column top (upsert_counter user group fresh change db) = true.
Proof.
  intros Hdb Hrow. unfold counters_in_column, upsert_counter in *.
  cbn [set_objects UserActivity_Model UserActivity_objects].
  destruct (matching (UserActivity.of_ user group) (UserActivity_objects db))
    as [| [i f] rest]; cbn [rows snd] in *.
  - rewrite forallb_app, Hdb. cbn. now rewrite Hrow.
  - apply forallb_forall. intros x Hx.
    apply in_map_iff in Hx. destruct Hx as (y & <- & Hy).
    destruct (has_pk i y); [exact Hrow |].
    rewrite forallb_forall in Hdb. now apply Hdb.
Qed.

Lemma upsert_counter_out_of_column (top : Z) user group fresh change (db : DB) :
  match matching (UserActivity.of_ user group) (UserActivity_objects db) with
  | [] => row_in_column top fresh = false
  | x :: _ => row_in_column top (change (snd x)) = false
  end ->
  counters_in_column top (upsert_counter user group fresh change db) = false.
Proof.
  intros Hrow. unfold counters_in_column, upsert_counter.
  cbn [set_objects UserActivity_Model UserActivity_objects].
  destruct (matching (UserActivity.of_ user group) (UserActivity_objects db))
    as [| [i f] rest] eqn:Hm; cbn [rows snd] in *.
  - rewrite forallb_app. cbn. rewrite Hrow. apply andb_false_r.
  - apply not_true_is_false. intros Hall. rewrite forallb_forall in Hall.
    destruct (matching_head_stored _ _ _ _ Hm) as (_ & Hin & _).
    assert (Hw : In (i, change f)
                    (map (fun x => if has_pk i x then (i, change f) else x)
                         (rows (UserActivity_objects db)))).
    { apply in_map_iff. exists (i, f). split; [| exact Hin].
      unfold has_pk. cbn [fst]. now rewrite Z.eqb_refl. }
    specialize (Hall _ Hw). cbn [snd] in Hall. congruence.
Qed.

(** The row the helpers use for a pair is a stored row. *)
Lemma first_row_in_column (top : Z) user group (db : DB) x rest :
  counters_in_column top db = true ->
  matching (UserActivity.of_ user group) (UserActivity_objects db) = x :: rest ->
  (- top - 1 <= UserActivity_post_count (snd x) <= top)
  /\ (- top - 1 <= UserActivity_comment_count (snd x) <= top).
Proof.
  intros Hdb Hm. destruct (matching_head_stored _ _ _ _ Hm) as (_ & Hin & _).
  apply row_in_column_iff. now apply (stored_row_in_column top db).
Qed.

Section WithinColumn.
Variables (top : Z) (user : FBUser) (group : Group) (db : DB).
Hypothesis in_range : counters_in_column top db = true.

(** Below the top value the database accepts the incremented counter. *)
Lemma add_post_count_within :
  post_count_of user group db < top ->
  exists db',
    within_column top (UserActivity.add_post_count user group) db = Ok tt db'
    /\ UserActivity.add_post_count user group db = Ok tt db'
    /\ counters_in_column top db' = true.
Proof.
  intros Hc. eexists. split; [| split; [apply add_post_count_upsert |]].
  - eapply within_column_accepts; [apply add_post_count_upsert |].
    apply upsert_counter_in_column; [exact in_range |].
    unfold post_count_of, counter_of in Hc.
    destruct (matching _ _) as [| x rest] eqn:Hm.
    + apply row_in_column_iff. cbn. lia.
    + pose proof (first_row_in_column top user group db x rest in_range Hm).
      apply row_in_column_iff. cbn. lia.
  - apply upsert_counter_in_column; [exact in_range |].
    unfold post_count_of, counter_of in Hc.
    destruct (matching _ _) as [| x rest] eqn:Hm.
    + apply row_in_column_iff. cbn. lia.
    + pose proof (first_row_in_column top user group db x rest in_range Hm).
      apply row_in_column_iff. cbn. lia.
Qed.

Lemma add_comment_count_within :
  comment_count_of user group db < top ->
  exists db',
    within_column top (UserActivity.add_comment_count user group) db = Ok tt db'
    /\ UserActivity.add_comment_count user group db = Ok tt db'
    /\ counters_in_column top db' = true.
Proof.
  intros Hc. eexists. split; [| split; [apply add_comment_count_upsert |]].
  - eapply within_column_accepts; [apply add_comment_count_upsert |].
    apply upsert_counter_in_column; [exact in_range |].
    unfold comment_count_of, counter_of in Hc.
    destruct (matching _ _) as [| x rest] eqn:Hm.
    + apply row_in_column_iff. cbn. lia.
    + pose proof (first_row_in_column top user group db x rest in_range Hm).
      apply row_in_column_iff. cbn. lia.
  - apply upsert_counter_in_column; [exact in_range |].
    unfold comment_count_of, counter_of in Hc.
    destruct (matching _ _) as [| x rest] eqn:Hm.
    + apply row_in_column_iff. cbn. lia.
    + pose proof (first_row_in_column top user group db x rest in_range Hm).
      apply row_in_column_iff. cbn. lia.
Qed.

(** At the top value the database refuses the incremented counter. *)
Lemma add_post_count_refused :
  post_count_of user group db = top ->
  within_column top (UserActivity.add_post_count user group) db = Raise DataError.
Proof.
  intros Hc. eapply within_column_refuses; [apply add_post_count_upsert |].
  apply upsert_counter_out_of_column.
  unfold post_count_of, counter_of in Hc.
  destruct (matching _ _) as [| x rest] eqn:Hm;
    apply not_true_is_false; intros Hr; apply row_in_column_iff in Hr;
    cbn in Hr; lia.
Qed.

Lemma add_comment_count_refused :
  comment_count_of user group db = top ->
  within_column top (UserActivity.add_comment_count user group) db = Raise DataError.
Proof.
  intros Hc. eapply within_column_refuses; [apply add_comment_count_upsert |].
  apply upsert_counter_out_of_column.
  unfold comment_count_of, counter_of in Hc.
  destruct (matching _ _) as [| x rest] eqn:Hm;
    apply not_true_is_false; intros Hr; apply row_in_column_iff in Hr;
    cbn in Hr; lia.
Qed.

(** The database accepts every decremented counter. *)
Lemma sub_post_count_within :
  0 <= top ->
  exists db',
    within_column top (UserActivity.sub_post_count user group) db = Ok tt db'
    /\ UserActivity.sub_post_count user group db = Ok tt db'
    /\ counters_in_column top db' = true.
Proof.
  intros Htop.
  assert (Hin : counters_in_column top
                  (upsert_counter user group (fields (UserActivity.new user group 0 0))
                     (fun r => if UserActivity_post_count r >? 0
                               then UserActivity.set_post_count
                                      (UserActivity_post_count r - 1) r
                               else UserActivity.set_post_count 0 r) db) = true).
  { apply upsert_counter_in_column; [exact in_range |].
    destruct (matching _ _) as [| x rest] eqn:Hm.
    - apply row_in_column_iff. cbn. lia.
    - pose proof (first_row_in_column top user group db x rest in_range Hm).
      apply row_in_column_iff.
      destruct (Z.gtb_spec (UserActivity_post_count (snd x)) 0); cbn; lia. }
  eexists. split; [| split; [apply sub_post_count_upsert | exact Hin]].
  eapply within_column_accepts; [apply sub_post_count_upsert | exact Hin].
Qed.

Lemma sub_comment_count_within :
  0 <= top ->
  exists db',
    within_column top (UserActivity.sub_comment_count user group) db = Ok tt db'
    /\ UserActivity.sub_comment_count user group db = Ok tt db'
    /\ counters_in_column top db' = true.
Proof.
  intros Htop.
  assert (Hin : counters_in_column top
                  (upsert_counter user group (fields (UserActivity.new user group 0 0))
                     (fun r => if UserActivity_comment_count r >? 0
                               then UserActivity.set_comment_count
                                      (UserActivity_comment_count r - 1) r
                               else UserActivity.set_comment_count 0 r) db) = true).
  { apply upsert_counter_in_column; [exact in_range |].
    destruct (matching _ _) as [| x rest] eqn:Hm.
    - apply row_in_column_iff. cbn. lia.
    - pose proof (first_row_in_column top user group db x rest in_range Hm).
      apply row_in_column_iff.
      destruct (Z.gtb_spec (UserActivity_comment_count (snd x)) 0); cbn; lia. }
  eexists. split; [| split; [apply sub_comment_count_upsert | exact Hin]].
  eapply within_column_accepts; [apply sub_comment_count_upsert | exact Hin].
Qed.
End WithinColumn.




(** ** The retention sweep *)

Lemma check_runs (group : Group) (db : DB) :
  check group db = Ok tt (check_result group db).
Proof.
  unfold check_result.
  destruct (gate group "month_content" db) as [[i f] |] eqn:Hg.
  - destruct (gate_present_matching _ _ _ _ Hg) as [rest Hm].
    unfold check. unfold bind at 1. unfold qs_bool, bind, fetch_all, objects_filter,
      ret, cached, sql_select.
    cbn [result_cache where_ objects GroupStatisticsUpdateList_Model].
    rewrite Hm. cbn [map nonempty]. unfold qs_getitem. cbn [result_cache nth_error].
    rewrite is_update_due. cbn [loaded fields snd].
    destruct (due (now db) f) eqn:Hdue; [| reflexivity].
    unfold timezone_now, qs_iter, bind, fetch_all, ret, cached, sql_select.
    cbn [result_cache where_].
    rewrite for_each_delete.
    rewrite for_each_delete.
    rewrite (update_present group "month_content" _ i f) by exact Hg.
    reflexivity.
  - pose proof (gate_absent_matching _ _ _ Hg) as Hm.
    unfold check. unfold bind at 1. unfold qs_bool, bind, fetch_all, objects_filter,
      ret, cached, sql_select.
    cbn [result_cache where_ objects GroupStatisticsUpdateList_Model].
    rewrite Hm. cbn [map nonempty].
    rewrite (update_absent group "month_content" db Hg). reflexivity.
Qed.

Lemma swept_rows {F} (p : F -> bool) (t : Table F) :
  NoDup (map fst (rows t)) ->
  rows (swept p t) = filter (fun x => negb (p (snd x))) (rows t).
Proof. intros Hnd. unfold swept, matching. cbn [rows]. now apply delete_selected. Qed.

Lemma check_result_frame (group : Group) (db : DB) :
  now (check_result group db) = now db
  /\ UserActivity_objects (check_result group db) = UserActivity_objects db.
Proof.
  unfold check_result.
  destruct (gate group "month_content" db) as [[i f] |]; [| now split].
  destruct (due (now db) f); now split.
Qed.

(** C1.  [check(group)] always returns and never touches the clock or
    the activity counters.  With no gate row for ["month_content"], it
    appends one stamped with the clock and leaves both shadow tables as
    they are.  With a gate row that is less than a day old, it changes
    nothing at all.  With a gate row that is at least a day old, it
    keeps, in each shadow table (whose primary keys are distinct), the
    rows that are not both of that group and created before the clock
    minus 30 days, in their order, and deletes the others; then the gate
    row is stamped with the clock. *)
Theorem check_month_window (group : Group) (db : DB) :
  exists db',
    check group db = Ok tt db'
    /\ now db' = now db
    /\ UserActivity_objects db' = UserActivity_objects db
    /\ match gate group "month_content" db with
       | None =>
           rows (GroupStatisticsUpdateList_objects db')
           = (rows (GroupStatisticsUpdateList_objects db)
              ++ [(next_id (GroupStatisticsUpdateList_objects db),
                   gate_row group "month_content" (now db))])%list
           /\ MonthPost_objects db' = MonthPost_objects db
           /\ MonthComment_objects db' = MonthComment_objects db
       | Some (i, f) =>
           if now db - GroupStatisticsUpdateList_updated_time f >=? day then
             (NoDup (map fst (rows (MonthPost_objects db))) ->
              rows (MonthPost_objects db')
              = filter (fun x => negb (String.eqb (MonthPost_group (snd x)) (Group_id group)
                                       && (MonthPost_created_time (snd x)
                                           <? now db - 30 * day)))
                       (rows (MonthPost_objects db)))
             /\ (NoDup (map fst (rows (MonthComment_objects db))) ->
                 rows (MonthComment_objects db')
                 = filter (fun x => negb (String.eqb (MonthComment_group (snd x))
                                                     (Group_id group)
                                          && (MonthComment_created_time (snd x)
                                              <? now db - 30 * day)))
                          (rows (MonthComment_objects db)))
             /\ rows (GroupStatisticsUpdateList_objects db')
                = touched i f (now db) (rows (GroupStatisticsUpdateList_objects db))
             /\ gate group "month_content" db' = Some (i, set_updated_time (now db) f)
           else db' = db
       end.
Proof.
  exists (check_result group db).
  split; [apply check_runs |].
  destruct (check_result_frame group db) as [Hnow Hua].
  split; [exact Hnow |]. split; [exact Hua |].
  unfold check_result.
  destruct (gate group "month_content" db) as [[i f] |] eqn:Hg.
  - rewrite <- due_iff. destruct (due (now db) f); [| reflexivity].
    cbn [MonthPost_objects MonthComment_objects GroupStatisticsUpdateList_objects rows].
    split; [| split; [| split]].
    + intros Hnd.
      exact (swept_rows (MonthPost_older group (now db - timedelta_of_days 30)) _ Hnd).
    + intros Hnd.
      exact (swept_rows (MonthComment_older group (now db - timedelta_of_days 30)) _ Hnd).
    + reflexivity.
    + destruct (gate_present_matching _ _ _ _ Hg) as [rest Hm].
      destruct (matching_head_stored _ _ _ _ Hm) as (_ & _ & Hp).
      unfold gate. cbn.
      apply (gate_touched _ _ _ _ _ rest); [exact Hm | exact Hp].
  - now repeat split.
Qed.

Lemma check_month_window_witness :
  exists db',
    check Sample.club Sample.db_due = Ok tt db'
    /\ rows (MonthPost_objects db')
       = [(2, Sample.shadow (99 * day) "g1" "p2"); (3, Sample.shadow 0 "g2" "p3")].
Proof.
  destruct (check_month_window Sample.club Sample.db_due) as (db' & Hc & _ & _ & Hcase).
  exists db'. split; [exact Hc |].
  change (gate Sample.club "month_content" Sample.db_due)
    with (Some (1, gate_row Sample.club "month_content" 0)) in Hcase.
  cbv iota beta in Hcase.
  change (now Sample.db_due - GroupStatisticsUpdateList_updated_time
                                (gate_row Sample.club "month_content" 0) >=? day)
    with true in Hcase.
  cbv iota in Hcase.
  destruct Hcase as (Hposts & _).
  rewrite Hposts; [reflexivity |].
  cbn. repeat constructor; cbn; intuition discriminate.
Defined.

(** ** The shadow tables *)

Section InsertUnless.
Context {F : Type} `{ModelLaws F}.
Variables (p : F -> bool) (f : F).
Hypothesis pre_save_f : forall add t, pre_save add t f = f.
Hypothesis clash_f : forall x, unique_clash f x = p x.
Hypothesis p_f : p f = true.

Lemma insert_unless_runs (db : DB) :
  (found <- qs_exists (objects_filter p) ;;
   if (found : bool) then ret tt else save (unsaved f)) db
  = Ok tt (inserted_unless p f db).
Proof.
  unfold inserted_unless, bind, qs_exists, objects_filter, ret.
  cbn [result_cache where_].
  destruct (nonempty (matching p (objects db))) eqn:Hn; [reflexivity |].
  rewrite save_unsaved; rewrite pre_save_f; [reflexivity |].
  unfold matching in Hn. rewrite nonempty_existsb in Hn.
  rewrite <- Hn. apply existsb_same. intros x. apply clash_f.
Qed.

Lemma inserted_unless_found (db : DB) :
  nonempty (matching p (objects (inserted_unless p f db))) = true.
Proof.
  unfold inserted_unless.
  destruct (nonempty (matching p (objects db))) eqn:Hn; [exact Hn |].
  rewrite objects_set_objects, matching_app. cbn [snd]. rewrite p_f.
  now destruct (matching p _).
Qed.

Lemma inserted_unless_twice (db : DB) :
  inserted_unless p f (inserted_unless p f db) = inserted_unless p f db.
Proof.
  unfold inserted_unless at 1. now rewrite inserted_unless_found.
Qed.

Lemma inserted_unless_count (db : DB) :
  (count p (objects db) <= 1)%nat ->
  count p (objects (inserted_unless p f db)) = 1%nat.
Proof.
  unfold inserted_unless, count.
  destruct (matching p (objects db)) as [| x l] eqn:Hm; cbn [nonempty].
  - intros _. rewrite objects_set_objects, matching_app.
    unfold matching in *. cbn [rows snd]. now rewrite Hm, p_f.
  - rewrite Hm. cbn. destruct l; cbn; lia.
Qed.

(** Without a selected row, the new row is appended under the next key. *)
Lemma inserted_unless_missing (db : DB) :
  count p (objects db) = 0%nat ->
  objects (inserted_unless p f db)
  = {| rows := rows (objects db) ++ [(next_id (objects db), f)];
       next_id := next_id (objects db) + 1 |}.
Proof.
  unfold inserted_unless, count.
  destruct (matching p (objects db)); cbn; [| discriminate].
  intros _. apply objects_set_objects.
Qed.
End InsertUnless.

Lemma count_swept_le {F} (p q : F -> bool) (t : Table F) :
  (count p (swept q t) <= count p t)%nat.
Proof.
  unfold count, swept, matching. cbn [rows].
  generalize (fun x : Z * F => negb (existsb (fun v => has_pk (fst v) x)
                                             (filter (fun x => q (snd x)) (rows t)))).
  intros k. induction (rows t) as [| x l IH]; cbn; [lia |].
  destruct (k x); cbn; destruct (p (snd x)); cbn; lia.
Qed.

Lemma check_result_settled (group : Group) (db : DB) :
  settled group (check_result group db).
Proof.
  destruct seconds_constants as (_ & _ & _ & _ & _ & Hday & _).
  unfold settled, check_result.
  destruct (gate group "month_content" db) as [[i f] |] eqn:Hg.
  - destruct (due (now db) f) eqn:Hdue.
    + exists i, (set_updated_time (now db) f). split.
      * destruct (gate_present_matching _ _ _ _ Hg) as [rest Hm].
        destruct (matching_head_stored _ _ _ _ Hm) as (_ & _ & Hp).
        unfold gate. cbn.
        apply (gate_touched _ _ _ _ _ rest); [exact Hm | exact Hp].
      * rewrite due_iff. cbn. replace (now db - now db) with 0 by lia. reflexivity.
    + now exists i, f.
  - exists (next_id (GroupStatisticsUpdateList_objects db)),
      (gate_row group "month_content" (now db)).
    split.
    + apply gate_absent_matching in Hg.
      unfold gate, with_gates. cbn -[matching]. rewrite matching_app.
      unfold matching in *. cbn. rewrite Hg, of_gate_row. reflexivity.
    + rewrite due_iff. cbn. replace (now db - now db) with 0 by lia. reflexivity.
Qed.

Lemma settled_check_result (group : Group) (db : DB) :
  settled group db -> check_result group db = db.
Proof.
  intros (i & f & Hg & Hdue). unfold check_result. now rewrite Hg, Hdue.
Qed.

Lemma check_result_count_posts (group : Group) (p : MonthPost -> bool) (db : DB) :
  (count p (MonthPost_objects (check_result group db)) <= count p (MonthPost_objects db))%nat.
Proof.
  unfold check_result.
  destruct (gate group "month_content" db) as [[i f] |]; [| cbn; lia].
  destruct (due (now db) f); [| lia].
  cbn [MonthPost_objects]. apply count_swept_le.
Qed.

Lemma check_result_count_comments (group : Group) (p : MonthComment -> bool) (db : DB) :
  (count p (MonthComment_objects (check_result group db))
   <= count p (MonthComment_objects db))%nat.
Proof.
  unfold check_result.
  destruct (gate group "month_content" db) as [[i f] |]; [| cbn; lia].
  destruct (due (now db) f); [| lia].
  cbn [MonthComment_objects]. apply count_swept_le.
Qed.

Lemma MonthPost_create_runs (post : Post) (db : DB) :
  MonthPost.create post db =
  Ok tt (inserted_unless (MonthPost.of_post post) (MonthPost.new post)
           (check_result (Post_group post) db)).
Proof.
  unfold MonthPost.create. unfold bind at 1. rewrite check_runs.
  apply insert_unless_runs; [reflexivity |].
  intros x. apply String.eqb_sym.
Qed.

Lemma MonthComment_create_runs (comment : Comment) (db : DB) :
  MonthComment.create comment db =
  Ok tt (inserted_unless (MonthComment.of_comment comment) (MonthComment.new comment)
           (check_result (Comment_group comment) db)).
Proof.
  unfold MonthComment.create. unfold bind at 1. rewrite check_runs.
  apply insert_unless_runs; [reflexivity |].
  intros x. apply String.eqb_sym.
Qed.

Lemma settled_inserted_post (group : Group) p f (db : DB) :
  settled group db -> settled group (inserted_unless (F := MonthPost) p f db).
Proof.
  unfold inserted_unless. now destruct (nonempty _).
Qed.

Lemma settled_inserted_comment (group : Group) p f (db : DB) :
  settled group db -> settled group (inserted_unless (F := MonthComment) p f db).
Proof.
  unfold inserted_unless. now destruct (nonempty _).
Qed.

(** C6.  When the post has at most one shadow row (the one-to-one
    constraint of the table), [MonthPost.create(post)] returns and
    leaves exactly one shadow row for the post, and a second call right
    after it returns and leaves the whole store as the first call left
    it: it inserts nothing.  The same holds for
    [MonthComment.create(comment)]. *)
Theorem month_create_idempotent :
  (forall (post : Post) (db : DB),
      (count (MonthPost.of_post post) (MonthPost_objects db) <= 1)%nat ->
      exists db1,
        MonthPost.create post db = Ok tt db1
        /\ count (MonthPost.of_post post) (MonthPost_objects db1) = 1%nat
        /\ MonthPost.create post db1 = Ok tt db1)
  /\ (forall (comment : Comment) (db : DB),
      (count (MonthComment.of_comment comment) (MonthComment_objects db) <= 1)%nat ->
      exists db1,
        MonthComment.create comment db = Ok tt db1
        /\ count (MonthComment.of_comment comment) (MonthComment_objects db1) = 1%nat
        /\ MonthComment.create comment db1 = Ok tt db1).
Proof.
  split.
  - intros post db Hc. eexists. split; [apply MonthPost_create_runs |]. split.
    + refine (inserted_unless_count (MonthPost.of_post post) (MonthPost.new post)
                (String.eqb_refl _) (check_result (Post_group post) db) _).
      eapply Nat.le_trans; [apply check_result_count_posts | exact Hc].
    + rewrite MonthPost_create_runs. f_equal.
      rewrite settled_check_result
        by (apply settled_inserted_post, check_result_settled).
      apply (inserted_unless_twice (MonthPost.of_post post) (MonthPost.new post)
               (String.eqb_refl _)).
  - intros comment db Hc. eexists. split; [apply MonthComment_create_runs |]. split.
    + refine (inserted_unless_count (MonthComment.of_comment comment)
                (MonthComment.new comment) (String.eqb_refl _)
                (check_result (Comment_group comment) db) _).
      eapply Nat.le_trans; [apply check_result_count_comments | exact Hc].
    + rewrite MonthComment_create_runs. f_equal.
      rewrite settled_check_result
        by (apply settled_inserted_comment, check_result_settled).
      apply (inserted_unless_twice (MonthComment.of_comment comment)
               (MonthComment.new comment) (String.eqb_refl _)).
Qed.

Lemma month_create_idempotent_witness :
  exists db1,
    MonthPost.create (Sample.post_at "p1" 0) Sample.db_due = Ok tt db1
    /\ count (MonthPost.of_post (Sample.post_at "p1" 0)) (MonthPost_objects db1) = 1%nat
    /\ MonthPost.create (Sample.post_at "p1" 0) db1 = Ok tt db1.
Proof.
  apply (proj1 month_create_idempotent). cbn. lia.
Defined.

(** *** Rows stay until a due sweep of their group *)

Lemma NoDup_keys_filter {F} (k : Z * F -> bool) (l : list (Z * F)) :
  NoDup (map fst l) -> NoDup (map fst (filter k l)).
Proof.
  induction l as [| x l IH]; cbn; intros Hnd; [constructor |].
  inversion Hnd as [| ? ? Hx Hl]; subst.
  destruct (k x); cbn; [| now apply IH].
  constructor; [| now apply IH].
  intros Hin. apply Hx.
  apply in_map_iff in Hin. destruct Hin as (y & Hy & Hin).
  apply filter_In in Hin. rewrite <- Hy. apply in_map. tauto.
Qed.

Lemma swept_well_keyed {F} (p : F -> bool) (t : Table F) :
  well_keyed t -> well_keyed (swept p t).
Proof.
  intros [Hnd Hlt]. split; cbn [swept rows next_id].
  - now apply NoDup_keys_filter.
  - apply Forall_forall. intros x Hx. apply filter_In in Hx.
    rewrite Forall_forall in Hlt. now apply Hlt.
Qed.

(** A row that the sweep does not select survives it. *)
Lemma swept_keeps {F} (p : F -> bool) (t : Table F) (x : Z * F) :
  well_keyed t -> In x (rows t) -> p (snd x) = false -> In x (rows (swept p t)).
Proof.
  intros [Hnd _] Hx Hp. rewrite swept_rows by exact Hnd.
  apply filter_In. split; [exact Hx | now rewrite Hp].
Qed.

(** A row that the sweep selects does not survive it. *)
Lemma swept_removes {F} (p : F -> bool) (t : Table F) (x : Z * F) :
  In x (rows t) -> p (snd x) = true -> ~ In x (rows (swept p t)).
Proof.
  intros Hx Hp Hin. unfold swept in Hin. cbn [rows] in Hin.
  apply filter_In in Hin. destruct Hin as [_ Hk].
  apply negb_true_iff in Hk.
  assert (He : existsb (fun v => has_pk (fst v) x) (matching p t) = true).
  { apply existsb_exists. exists x. split; [| apply Z.eqb_refl].
    apply filter_In. now split. }
  congruence.
Qed.

Section InsertKeeps.
Context {F : Type} `{ModelLaws F}.
Variables (p : F -> bool) (f : F).

Lemma inserted_unless_well_keyed (db : DB) :
  well_keyed (objects db) -> well_keyed (objects (inserted_unless p f db)).
Proof.
  intros [Hnd Hlt]. unfold inserted_unless.
  destruct (nonempty _); [now split |].
  rewrite objects_set_objects. split; cbn [rows next_id].
  - rewrite map_app. cbn. apply NoDup_app; [exact Hnd | repeat constructor; intros [] |].
    intros k Hk [<- | []].
    apply in_map_iff in Hk. destruct Hk as (y & Hy & Hin).
    rewrite Forall_forall in Hlt. specialize (Hlt y Hin). lia.
  - apply Forall_app. split.
    + eapply Forall_impl; [| exact Hlt]. cbn. intros; lia.
    + repeat constructor. cbn. lia.
Qed.

Lemma inserted_unless_keeps (db : DB) (x : Z * F) :
  In x (rows (objects db)) -> In x (rows (objects (inserted_unless p f db))).
Proof.
  intros Hx. unfold inserted_unless.
  destruct (nonempty _); [exact Hx |].
  rewrite objects_set_objects. cbn [rows]. apply in_or_app. now left.
Qed.
End InsertKeeps.

Lemma MonthPost_older_other_group (group : Group) (date : datetime) (r : MonthPost) :
  String.eqb (Group_id group) (MonthPost_group r) = false ->
  MonthPost_older group date r = false.
Proof.
  intros Hg. unfold MonthPost_older. now rewrite String.eqb_sym, Hg.
Qed.

Lemma MonthComment_older_other_group (group : Group) (date : datetime) (r : MonthComment) :
  String.eqb (Group_id group) (MonthComment_group r) = false ->
  MonthComment_older group date r = false.
Proof.
  intros Hg. unfold MonthComment_older. now rewrite String.eqb_sym, Hg.
Qed.

(** A check that is not a due sweep of the row's group keeps the row. *)
Lemma check_result_keeps_post (group : Group) (db : DB) (x : Z * MonthPost) :
  well_keyed (MonthPost_objects db) ->
  In x (rows (MonthPost_objects db)) ->
  String.eqb (Group_id group) (MonthPost_group (snd x)) && sweep_due group db = false ->
  well_keyed (MonthPost_objects (check_result group db))
  /\ In x (rows (MonthPost_objects (check_result group db))).
Proof.
  intros Hwk Hx Hq. unfold check_result, sweep_due in *.
  destruct (gate group "month_content" db) as [[i f] |]; [| now split].
  destruct (due (now db) f); [| now split].
  cbn [MonthPost_objects]. split; [now apply swept_well_keyed |].
  apply swept_keeps; trivial.
  apply MonthPost_older_other_group. now rewrite andb_true_r in Hq.
Qed.

Lemma check_result_keeps_comment (group : Group) (db : DB) (x : Z * MonthComment) :
  well_keyed (MonthComment_objects db) ->
  In x (rows (MonthComment_objects db)) ->
  String.eqb (Group_id group) (MonthComment_group (snd x)) && sweep_due group db = false ->
  well_keyed (MonthComment_objects (check_result group db))
  /\ In x (rows (MonthComment_objects (check_result group db))).
Proof.
  intros Hwk Hx Hq. unfold check_result, sweep_due in *.
  destruct (gate group "month_content" db) as [[i f] |]; [| now split].
  destruct (due (now db) f); [| now split].
  cbn [MonthComment_objects]. split; [now apply swept_well_keyed |].
  apply swept_keeps; trivial.
  apply MonthComment_older_other_group. now rewrite andb_true_r in Hq.
Qed.

Lemma month_call_keeps_post (c : month_call) (db : DB) (x : Z * MonthPost) :
  well_keyed (MonthPost_objects db) ->
  In x (rows (MonthPost_objects db)) ->
  sweeps (MonthPost_group (snd x)) c db = false ->
  exists db',
    run_month_call c db = Ok tt db'
    /\ well_keyed (MonthPost_objects db')
    /\ In x (rows (MonthPost_objects db')).
Proof.
  intros Hwk Hx Hq. unfold sweeps in Hq.
  destruct c as [g | post | comment | g m | dt]; cbn [run_month_call checked_group] in *.
  - eexists. split; [apply check_runs |]. now apply check_result_keeps_post.
  - eexists. split; [apply MonthPost_create_runs |].
    destruct (check_result_keeps_post (Post_group post) db x Hwk Hx Hq) as [Hwk' Hx'].
    split.
    + exact (inserted_unless_well_keyed (MonthPost.of_post post) (MonthPost.new post)
               (check_result (Post_group post) db) Hwk').
    + exact (inserted_unless_keeps (MonthPost.of_post post) (MonthPost.new post)
               (check_result (Post_group post) db) x Hx').
  - eexists. split; [apply MonthComment_create_runs |].
    destruct (check_result_keeps_post (Comment_group comment) db x Hwk Hx Hq) as [Hwk' Hx'].
    unfold inserted_unless. destruct (nonempty _); now split.
  - eexists. split; [apply update_table |]. now split.
  - eexists. split; [reflexivity |]. now split.
Qed.

Lemma month_call_keeps_comment (c : month_call) (db : DB) (x : Z * MonthComment) :
  well_keyed (MonthComment_objects db) ->
  In x (rows (MonthComment_objects db)) ->
  sweeps (MonthComment_group (snd x)) c db = false ->
  exists db',
    run_month_call c db = Ok tt db'
    /\ well_keyed (MonthComment_objects db')
    /\ In x (rows (MonthComment_objects db')).
Proof.
  intros Hwk Hx Hq. unfold sweeps in Hq.
  destruct c as [g | post | comment | g m | dt]; cbn [run_month_call checked_group] in *.
  - eexists. split; [apply check_runs |]. now apply check_result_keeps_comment.
  - eexists. split; [apply MonthPost_create_runs |].
    destruct (check_result_keeps_comment (Post_group post) db x Hwk Hx Hq) as [Hwk' Hx'].
    unfold inserted_unless. destruct (nonempty _); now split.
  - eexists. split; [apply MonthComment_create_runs |].
    destruct (check_result_keeps_comment (Comment_group comment) db x Hwk Hx Hq)
      as [Hwk' Hx'].
    split.
    + exact (inserted_unless_well_keyed (MonthComment.of_comment comment)
               (MonthComment.new comment) (check_result (Comment_group comment) db) Hwk').
    + exact (inserted_unless_keeps (MonthComment.of_comment comment)
               (MonthComment.new comment) (check_result (Comment_group comment) db) x Hx').
  - eexists. split; [apply update_table |]. now split.
  - eexists. split; [reflexivity |]. now split.
Qed.

Lemma quiet_keeps_post (calls : list month_call) (db : DB) (x : Z * MonthPost) :
  well_keyed (MonthPost_objects db) ->
  In x (rows (MonthPost_objects db)) ->
  quiet (MonthPost_group (snd x)) calls db ->
  exists db',
    for_each calls run_month_call db = Ok tt db' /\ In x (rows (MonthPost_objects db')).
Proof.
  revert db. induction calls as [| c calls IH]; intros db Hwk Hx Hq.
  - exists db. now split.
  - destruct Hq as [Hc Hrest].
    destruct (month_call_keeps_post c db x Hwk Hx Hc) as (db1 & Hrun & Hwk1 & Hx1).
    rewrite Hrun in Hrest.
    destruct (IH db1 Hwk1 Hx1 Hrest) as (db' & Hrun' & Hx').
    exists db'. split; [| exact Hx'].
    cbn [for_each]. unfold bind. now rewrite Hrun.
Qed.

Lemma quiet_keeps_comment (calls : list month_call) (db : DB) (x : Z * MonthComment) :
  well_keyed (MonthComment_objects db) ->
  In x (rows (MonthComment_objects db)) ->
  quiet (MonthComment_group (snd x)) calls db ->
  exists db',
    for_each calls run_month_call db = Ok tt db' /\ In x (rows (MonthComment_objects db')).
Proof.
  revert db. induction calls as [| c calls IH]; intros db Hwk Hx Hq.
  - exists db. now split.
  - destruct Hq as [Hc Hrest].
    destruct (month_call_keeps_comment c db x Hwk Hx Hc) as (db1 & Hrun & Hwk1 & Hx1).
    rewrite Hrun in Hrest.
    destruct (IH db1 Hwk1 Hx1 Hrest) as (db' & Hrun' & Hx').
    exists db'. split; [| exact Hx'].
    cbn [for_each]. unfold bind. now rewrite Hrun.
Qed.

Lemma check_result_posts_next_id (group : Group) (db : DB) :
  next_id (MonthPost_objects (check_result group db)) = next_id (MonthPost_objects db).
Proof.
  unfold check_result.
  destruct (gate group "month_content" db) as [[i f] |]; [| reflexivity].
  now destruct (due (now db) f).
Qed.

Lemma check_result_comments_next_id (group : Group) (db : DB) :
  next_id (MonthComment_objects (check_result group db))
  = next_id (MonthComment_objects db).
Proof.
  unfold check_result.
  destruct (gate group "month_content" db) as [[i f] |]; [| reflexivity].
  now destruct (due (now db) f).
Qed.

(** C10.  [MonthPost.create] and [MonthComment.create] look at no age:
    for a post (comment) without a shadow row the call returns and the
    shadow row, carrying the post's (comment's) own [created_time]
    whatever it is, is in the table afterwards, under the next key.  A
    shadow row of a table with distinct keys stays in it through any
    sequence of checks, creations, gate touches and waits in which no
    check runs a due sweep for the row's group.  A due sweep of a group
    removes the rows of the group created before the clock minus 30
    days. *)
Theorem month_create_no_age_check :
  (forall (post : Post) (db : DB),
      count (MonthPost.of_post post) (MonthPost_objects db) = 0%nat ->
      exists db1,
        MonthPost.create post db = Ok tt db1
        /\ In (next_id (MonthPost_objects db),
               {| MonthPost_created_time := Post_created_time post;
                  MonthPost_group := Group_id (Post_group post);
                  MonthPost_post := Post_id post |})
              (rows (MonthPost_objects db1)))
  /\ (forall (comment : Comment) (db : DB),
      count (MonthComment.of_comment comment) (MonthComment_objects db) = 0%nat ->
      exists db1,
        MonthComment.create comment db = Ok tt db1
        /\ In (next_id (MonthComment_objects db),
               {| MonthComment_created_time := Comment_created_time comment;
                  MonthComment_group := Group_id (Comment_group comment);
                  MonthComment_comment := Comment_id comment |})
              (rows (MonthComment_objects db1)))
  /\ (forall (calls : list month_call) (db : DB) (x : Z * MonthPost),
      well_keyed (MonthPost_objects db) ->
      In x (rows (MonthPost_objects db)) ->
      quiet (MonthPost_group (snd x)) calls db ->
      exists db',
        for_each calls run_month_call db = Ok tt db'
        /\ In x (rows (MonthPost_objects db')))
  /\ (forall (calls : list month_call) (db : DB) (x : Z * MonthComment),
      well_keyed (MonthComment_objects db) ->
      In x (rows (MonthComment_objects db)) ->
      quiet (MonthComment_group (snd x)) calls db ->
      exists db',
        for_each calls run_month_call db = Ok tt db'
        /\ In x (rows (MonthComment_objects db')))
  /\ (forall (group : Group) (db : DB) (x : Z * MonthPost),
      sweep_due group db = true ->
      In x (rows (MonthPost_objects db)) ->
      MonthPost_group (snd x) = Group_id group ->
      MonthPost_created_time (snd x) < now db - 30 * day ->
      exists db',
        check group db = Ok tt db' /\ ~ In x (rows (MonthPost_objects db')))
  /\ (forall (group : Group) (db : DB) (x : Z * MonthComment),
      sweep_due group db = true ->
      In x (rows (MonthComment_objects db)) ->
      MonthComment_group (snd x) = Group_id group ->
      MonthComment_created_time (snd x) < now db - 30 * day ->
      exists db',
        check group db = Ok tt db' /\ ~ In x (rows (MonthComment_objects db'))).
Proof.
  split; [| split; [| split; [| split; [| split]]]].
  - intros post db Hc. eexists. split; [apply MonthPost_create_runs |].
    pose proof (check_result_count_posts (Post_group post) (MonthPost.of_post post) db)
      as Hle.
    pose proof (inserted_unless_missing (MonthPost.of_post post) (MonthPost.new post)
                  (check_result (Post_group post) db)) as Hins.
    cbn [objects MonthPost_Model] in Hins. rewrite Hins by lia.
    cbn [rows]. rewrite check_result_posts_next_id.
    apply in_or_app. right. now left.
  - intros comment db Hc. eexists. split; [apply MonthComment_create_runs |].
    pose proof (check_result_count_comments (Comment_group comment)
                  (MonthComment.of_comment comment) db) as Hle.
    pose proof (inserted_unless_missing (MonthComment.of_comment comment)
                  (MonthComment.new comment)
                  (check_result (Comment_group comment) db)) as Hins.
    cbn [objects MonthComment_Model] in Hins. rewrite Hins by lia.
    cbn [rows]. rewrite check_result_comments_next_id.
    apply in_or_app. right. now left.
  - apply quiet_keeps_post.
  - apply quiet_keeps_comment.
  - intros group db x Hdue Hx Hg Hold.
    eexists. split; [apply check_runs |].
    unfold check_result. unfold sweep_due in Hdue.
    destruct (gate group "month_content" db) as [[i f] |]; [| discriminate].
    rewrite Hdue. cbn [MonthPost_objects].
    apply swept_removes; [exact Hx |].
    unfold MonthPost_older. rewrite Hg, String.eqb_refl. cbn.
    now apply Z.ltb_lt.
  - intros group db x Hdue Hx Hg Hold.
    eexists. split; [apply check_runs |].
    unfold check_result. unfold sweep_due in Hdue.
    destruct (gate group "month_content" db) as [[i f] |]; [| discriminate].
    rewrite Hdue. cbn [MonthComment_objects].
    apply swept_removes; [exact Hx |].
    unfold MonthComment_older. rewrite Hg, String.eqb_refl. cbn.
    now apply Z.ltb_lt.
Qed.

Lemma month_create_no_age_check_witness :
  (exists db1,
      MonthPost.create (Sample.post_at "p9" 0) Sample.db_due = Ok tt db1
      /\ In (4, Sample.shadow 0 "g1" "p9") (rows (MonthPost_objects db1)))
  /\ (exists db',
         for_each [Check Sample.club; Wait day; Create_post (Sample.post_at "p9" 0)]
                  run_month_call Sample.db_due = Ok tt db'
         /\ In (3, Sample.shadow 0 "g2" "p3") (rows (MonthPost_objects db')))
  /\ (exists db',
         check Sample.club Sample.db_due = Ok tt db'
         /\ ~ In (1, Sample.shadow 0 "g1" "p1") (rows (MonthPost_objects db'))).
Proof.
  destruct month_create_no_age_check as (Hcreate & _ & Hkeep & _ & Hsweep & _).
  split; [| split].
  - apply (Hcreate (Sample.post_at "p9" 0) Sample.db_due). reflexivity.
  - apply (Hkeep _ Sample.db_due (3, Sample.shadow 0 "g2" "p3")).
    + split; cbn.
      * repeat constructor; cbn; intuition discriminate.
      * repeat constructor.
    + cbn. tauto.
    + vm_compute. tauto.
  - apply (Hsweep Sample.club Sample.db_due (1, Sample.shadow 0 "g1" "p1")).
    + reflexivity.
    + cbn. tauto.
    + reflexivity.
    + reflexivity.
Defined.

(** * Further properties *)

(** ** Formatting *)

(** X1.  For a time that lies [d >= 0] in the past the result of
    [get_different_time] is a count followed by a unit, and the count is
    in the range of its unit: at least 1 for days, 1 to 23 for hours, 1
    to 59 for minutes and 0 to 59 for seconds. *)
Theorem get_different_time_count_in_range (db : DB) (d : timedelta) :
  0 <= d ->
  exists (n : Z) (unit : string),
    get_different_time (now db - d) db = Ok (str n ++ unit)%string db
    /\ ((unit = "days" /\ 1 <= n /\ n = d / day)
        \/ (unit = "hours" /\ 1 <= n <= 23)
        \/ (unit = "mins" /\ 1 <= n <= 59)
        \/ (unit = "secs" /\ 0 <= n <= 59)).
Proof.
  intros Hd.
  destruct seconds_constants as (Eh & Em & Hs & Hm & Hh & Hday & Hmh & Hhd).
  unfold get_different_time, bind, timezone_now, ret, divmod, total_seconds, days, int.
  replace (now db - (now db - d)) with d by lia.
  rewrite Eh, Em.
  rewrite !div_positive by (try apply Z.mod_pos_bound; lia).
  destruct (Z.geb_spec d day) as [Hd1 | Hd1].
  { exists (d / day), "days". split; [reflexivity |]. left.
    repeat split. apply Z.div_le_lower_bound; lia. }
  destruct (Z.geb_spec d hour) as [Hd2 | Hd2].
  { exists (d / hour), "hours". split; [reflexivity |]. right. left.
    split; [reflexivity |]. split.
    - apply Z.div_le_lower_bound; lia.
    - assert (d / hour < 24); [| lia].
      apply Z.div_lt_upper_bound; [lia |]. unfold hour, day in *. lia. }
  rewrite (Z.mod_small d hour) by lia.
  destruct (Z.geb_spec d minute) as [Hd3 | Hd3].
  { exists (d / minute), "mins". split; [reflexivity |]. right. right. left.
    split; [reflexivity |]. split.
    - apply Z.div_le_lower_bound; lia.
    - assert (d / minute < 60); [| lia].
      apply Z.div_lt_upper_bound; [lia |]. unfold hour, minute in *. lia. }
  rewrite (Z.mod_small d minute) by lia.
  rewrite Z.quot_div_nonneg by lia.
  exists (d / second), "secs". split; [reflexivity |]. right. right. right.
  split; [reflexivity |]. split.
  - apply Z.div_pos; lia.
  - assert (d / second < 60); [| lia].
    apply Z.div_lt_upper_bound; [lia |]. unfold minute in *. lia.
Qed.

Lemma get_different_time_count_in_range_witness :
  exists (n : Z) (unit : string),
    get_different_time (now (Sample.db_at (100 * day)) - (day - 1))
                       (Sample.db_at (100 * day))
    = Ok (str n ++ unit)%string (Sample.db_at (100 * day))
    /\ ((unit = "days" /\ 1 <= n /\ n = (day - 1) / day)
        \/ (unit = "hours" /\ 1 <= n <= 23)
        \/ (unit = "mins" /\ 1 <= n <= 59)
        \/ (unit = "secs" /\ 0 <= n <= 59)).
Proof.
  apply (get_different_time_count_in_range (Sample.db_at (100 * day)) (day - 1)).
  vm_compute. discriminate.
Defined.

(** X2.  [Group.get_unit] returns the number itself up to and including
    1000 (also when it is negative), and above 1000 and below 2^52 the
    string of a count [k >= 1] followed by "K", where [k] is the number
    of whole thousands: [1000 * k <= number < 1000 * (k + 1)]. *)
Theorem get_unit_thousands (number : Z) :
  (number <= 1000 -> Group.get_unit number = inr number)
  /\ (1000 < number < exact_division_bound ->
      exists k, Group.get_unit number = inl (str k ++ "K")%string
                /\ 1 <= k /\ 1000 * k <= number < 1000 * (k + 1)).
Proof.
  unfold Group.get_unit. split; intros Hn.
  - destruct (Z.gtb_spec number 1000); [lia | reflexivity].
  - destruct (Z.gtb_spec number 1000); [| lia].
    exists (Z.quot number 1000). split; [reflexivity |].
    rewrite Z.quot_div_nonneg by lia.
    pose proof (Z.div_mod number 1000 ltac:(lia)) as Hdm.
    pose proof (Z.mod_pos_bound number 1000 ltac:(lia)) as Hmod.
    assert (1 <= number / 1000) by (apply Z.div_le_lower_bound; lia).
    lia.
Qed.

Lemma get_unit_thousands_witness :
  Group.get_unit 1000 = inr 1000
  /\ exists k, Group.get_unit 1999 = inl (str k ++ "K")%string
               /\ 1 <= k /\ 1000 * k <= 1999 < 1000 * (k + 1).
Proof.
  split.
  - apply (proj1 (get_unit_thousands 1000)). lia.
  - apply (proj2 (get_unit_thousands 1999)). vm_compute. split; reflexivity.
Defined.

Lemma split_head_no_sep (sep : ascii) (a : string) :
  occurs sep a = false -> split sep a = [a].
Proof.
  induction a as [| c a IH]; cbn; [reflexivity |].
  intros Ho. apply orb_false_iff in Ho. destruct Ho as [Hc Ha].
  rewrite Hc, (IH Ha). reflexivity.
Qed.

Lemma split_head_sep (sep : ascii) (a b : string) :
  occurs sep a = false ->
  exists pieces, split sep (a ++ String sep b) = a :: pieces.
Proof.
  induction a as [| c a IH]; cbn; intros Ho.
  - rewrite Ascii.eqb_refl. now eexists.
  - apply orb_false_iff in Ho. destruct Ho as [Hc Ha].
    rewrite Hc. destruct (IH Ha) as [pieces ->]. now eexists.
Qed.

Lemma split_nonempty (sep : ascii) (s : string) : split sep s <> [].
Proof.
  destruct s as [| c s]; cbn; [discriminate |].
  destruct (Ascii.eqb c sep); [discriminate |].
  destruct (split sep s); discriminate.
Qed.

(** X3.  [is_updated] (of [Group] and of [Post]) never fails, whatever
    the string.  Everything from the first "+" of the string on is
    discarded: for a text [a] without "+", the answer for [a + "+" + b]
    is the answer for [a], which is whether the formatted stored
    timestamp differs from [a]. *)
Theorem is_updated_discards_offset (strftime : datetime -> string -> string) :
  (forall (self : Group) (s : string), Group.is_updated strftime self s <> None)
  /\ (forall (self : Post) (s : string), Post.is_updated strftime self s <> None)
  /\ (forall (self : Group) (a b : string),
         occurs "+"%char a = false ->
         Group.is_updated strftime self (a ++ String "+"%char b)
         = Group.is_updated strftime self a
         /\ Group.is_updated strftime self a
            = Some (negb (String.eqb
                            (strftime (Group_updated_time self) "%Y-%m-%dT%H:%M:%S") a)))
  /\ (forall (self : Post) (a b : string),
         occurs "+"%char a = false ->
         Post.is_updated strftime self (a ++ String "+"%char b)
         = Post.is_updated strftime self a
         /\ Post.is_updated strftime self a
            = Some (negb (String.eqb
                            (strftime (Post_updated_time self) "%Y-%m-%dT%H:%M:%S") a))).
Proof.
  assert (Htotal : forall t s, differs_from_json strftime t s <> None).
  { intros t s. unfold differs_from_json.
    pose proof (split_nonempty "+"%char s).
    destruct (split "+"%char s); [contradiction | discriminate]. }
  assert (Hcut : forall t a b,
             occurs "+"%char a = false ->
             differs_from_json strftime t (a ++ String "+"%char b)
             = differs_from_json strftime t a
             /\ differs_from_json strftime t a
                = Some (negb (String.eqb (strftime t "%Y-%m-%dT%H:%M:%S") a))).
  { intros t a b Ha. unfold differs_from_json.
    destruct (split_head_sep "+"%char a b Ha) as [pieces ->].
    rewrite (split_head_no_sep _ _ Ha). now split. }
  split; [| split; [| split]].
  - intros self s. apply Htotal.
  - intros self s. apply Htotal.
  - intros self a b. apply Hcut.
  - intros self a b. apply Hcut.
Qed.

Lemma is_updated_discards_offset_witness :
  Group.is_updated (fun _ _ => "2015-11-04T07:23:00") Sample.club
                   "2015-11-04T07:23:00+0000"
  = Some false.
Proof.
  destruct (proj1 (proj2 (proj2 (is_updated_discards_offset
                                    (fun _ _ => "2015-11-04T07:23:00"))))
              Sample.club "2015-11-04T07:23:00" "0000" eq_refl) as [Hcut Hhead].
  exact (eq_trans Hcut Hhead).
Defined.

(** ** Cooldowns and ages *)

Lemma days_at_least (x : timedelta) (n : Z) :
  (days x >=? n) = (x >=? n * day).
Proof.
  unfold days.
  destruct seconds_constants as (_ & _ & _ & _ & _ & Hday & _).
  rewrite !Z.geb_leb.
  destruct (Z.leb_spec (n * day) x) as [Hle | Hlt].
  - apply Z.leb_le. apply Z.div_le_lower_bound; lia.
  - apply Z.leb_gt. apply Z.div_lt_upper_bound; lia.
Qed.

Lemma days_more_than (x : timedelta) (n : Z) :
  (days x >? n) = (x >=? (n + 1) * day).
Proof.
  transitivity (days x >=? n + 1); [| apply days_at_least].
  rewrite Z.gtb_ltb, Z.geb_leb.
  destruct (Z.ltb_spec n (days x)), (Z.leb_spec (n + 1) (days x));
    first [reflexivity | lia].
Qed.

(** X4.  [FBUser.is_update] returns true exactly when at least one full
    day lies between the stored timestamp and the clock; for a stored
    timestamp ahead of the clock it returns false.  Once it returns
    true it returns true at every later clock. *)
Theorem FBUser_is_update_cooldown (self : FBUser) (db : DB) :
  FBUser.is_update self db = Ok (now db - FBUser_updated_time self >=? day) db
  /\ (now db <= FBUser_updated_time self -> FBUser.is_update self db = Ok false db)
  /\ (forall dt : timedelta,
         0 <= dt ->
         FBUser.is_update self db = Ok true db ->
         FBUser.is_update self (advance dt db) = Ok true (advance dt db)).
Proof.
  destruct seconds_constants as (_ & _ & _ & _ & _ & Hday & _).
  assert (E : forall db0, FBUser.is_update self db0
                          = Ok (now db0 - FBUser_updated_time self >=? day) db0).
  { intros db0. unfold FBUser.is_update, bind, timezone_now, ret.
    rewrite days_at_least, Z.mul_1_l. now destruct (_ >=? day). }
  split; [apply E |]. split.
  - intros Hle. rewrite E. f_equal. rewrite Z.geb_leb. apply Z.leb_gt.
    clear E. lia.
  - intros dt Hdt. rewrite !E. intros [= Hge]. f_equal.
    rewrite Z.geb_leb in *. apply Z.leb_le in Hge. apply Z.leb_le.
    cbn [now advance]. clear E. lia.
Qed.

Lemma FBUser_is_update_cooldown_witness :
  FBUser.is_update Sample.alice (advance hour (Sample.db_at (2 * day)))
  = Ok true (advance hour (Sample.db_at (2 * day))).
Proof.
  apply (proj2 (proj2 (FBUser_is_update_cooldown Sample.alice (Sample.db_at (2 * day))))).
  - vm_compute. discriminate.
  - reflexivity.
Defined.

Lemma swept_subset {F} (p : F -> bool) (t : Table F) (x : Z * F) :
  In x (rows (swept p t)) -> In x (rows t) /\ p (snd x) = false.
Proof.
  intros Hx.
  assert (Hin : In x (rows t)).
  { unfold swept in Hx. cbn [rows] in Hx. now apply filter_In in Hx. }
  split; [exact Hin |].
  destruct (p (snd x)) eqn:Hp; [| reflexivity].
  exfalso. now apply (swept_removes p t x).
Qed.

(** X5.  [is_overtime] of a shadow post or comment returns true exactly
    from an age of 31 days on, whereas the sweep selects a row from an
    age above 30 days on: a row that is overtime is selected by the
    sweep of its group, and a row aged between 30 and 31 days is
    selected without being overtime. *)
Theorem is_overtime_later_than_sweep :
  (forall (self : Instance MonthPost) (db : DB),
      MonthPost.is_overtime self db
      = Ok (now db - MonthPost_created_time (fields self) >=? 31 * day) db)
  /\ (forall (self : Instance MonthComment) (db : DB),
      MonthComment.is_overtime self db
      = Ok (now db - MonthComment_created_time (fields self) >=? 31 * day) db)
  /\ (forall (self : Instance MonthPost) (group : Group) (db : DB),
      MonthPost_group (fields self) = Group_id group ->
      30 * day < now db - MonthPost_created_time (fields self) ->
      MonthPost_older group (now db - timedelta_of_days 30) (fields self) = true)
  /\ (forall (self : Instance MonthComment) (group : Group) (db : DB),
      MonthComment_group (fields self) = Group_id group ->
      30 * day < now db - MonthComment_created_time (fields self) ->
      MonthComment_older group (now db - timedelta_of_days 30) (fields self) = true).
Proof.
  split; [| split; [| split]].
  - intros self db. unfold MonthPost.is_overtime, bind, timezone_now, ret.
    rewrite days_more_than. now destruct (_ >=? _).
  - intros self db. unfold MonthComment.is_overtime, bind, timezone_now, ret.
    rewrite days_more_than. now destruct (_ >=? _).
  - intros self group db Hg Hage. unfold MonthPost_older, timedelta_of_days.
    rewrite Hg, String.eqb_refl. cbn [andb]. apply Z.ltb_lt. lia.
  - intros self group db Hg Hage. unfold MonthComment_older, timedelta_of_days.
    rewrite Hg, String.eqb_refl. cbn [andb]. apply Z.ltb_lt. lia.
Qed.

Lemma is_overtime_later_than_sweep_witness :
  MonthPost.is_overtime (loaded (1, Sample.shadow (69 * day + hour) "g1" "p1"))
                        Sample.db_due
  = Ok false Sample.db_due
  /\ MonthPost_older Sample.club (now Sample.db_due - timedelta_of_days 30)
                     (Sample.shadow (69 * day + hour) "g1" "p1") = true.
Proof.
  destruct is_overtime_later_than_sweep as (Hover & _ & Hsel & _).
  split.
  - exact (Hover (loaded (1, Sample.shadow (69 * day + hour) "g1" "p1")) Sample.db_due).
  - apply (Hsel (loaded (1, Sample.shadow (69 * day + hour) "g1" "p1"))
                Sample.club Sample.db_due); reflexivity.
Defined.

(** X6.  After a due sweep of a group no shadow row of that group is
    older than 30 days, in either table, whatever the keys of the
    tables; so [is_overtime] returns false on each of them. *)
Theorem due_sweep_leaves_young_rows (group : Group) (db : DB) :
  sweep_due group db = true ->
  exists db',
    check group db = Ok tt db'
    /\ (forall x, In x (rows (MonthPost_objects db')) ->
                  MonthPost_group (snd x) = Group_id group ->
                  now db - 30 * day <= MonthPost_created_time (snd x)
                  /\ MonthPost.is_overtime (loaded x) db' = Ok false db')
    /\ (forall x, In x (rows (MonthComment_objects db')) ->
                  MonthComment_group (snd x) = Group_id group ->
                  now db - 30 * day <= MonthComment_created_time (snd x)
                  /\ MonthComment.is_overtime (loaded x) db' = Ok false db').
Proof.
  intros Hdue.
  destruct seconds_constants as (_ & _ & _ & _ & _ & Hday & _).
  exists (check_result group db). split; [apply check_runs |].
  assert (Hnow : now (check_result group db) = now db) by apply check_result_frame.
  unfold check_result, sweep_due in *.
  destruct (gate group "month_content" db) as [[i f] |]; [| discriminate].
  rewrite Hdue in *. cbn [MonthPost_objects MonthComment_objects].
  split.
  - intros x Hx Hg. apply swept_subset in Hx. destruct Hx as [_ Hp].
    unfold MonthPost_older, timedelta_of_days in Hp.
    rewrite Hg, String.eqb_refl in Hp. cbn [andb] in Hp. apply Z.ltb_ge in Hp.
    split; [exact Hp |].
    unfold MonthPost.is_overtime, bind, timezone_now, ret.
    rewrite days_more_than. cbn [now loaded fields snd].
    replace (_ >=? _) with false; [reflexivity |].
    symmetry. rewrite Z.geb_leb. apply Z.leb_gt. lia.
  - intros x Hx Hg. apply swept_subset in Hx. destruct Hx as [_ Hp].
    unfold MonthComment_older, timedelta_of_days in Hp.
    rewrite Hg, String.eqb_refl in Hp. cbn [andb] in Hp. apply Z.ltb_ge in Hp.
    split; [exact Hp |].
    unfold MonthComment.is_overtime, bind, timezone_now, ret.
    rewrite days_more_than. cbn [now loaded fields snd].
    replace (_ >=? _) with false; [reflexivity |].
    symmetry. rewrite Z.geb_leb. apply Z.leb_gt. lia.
Qed.

Lemma due_sweep_leaves_young_rows_witness :
  exists db',
    check Sample.club Sample.db_due = Ok tt db'
    /\ forall x, In x (rows (MonthPost_objects db')) ->
                 MonthPost_group (snd x) = Group_id Sample.club ->
                 now Sample.db_due - 30 * day <= MonthPost_created_time (snd x)
                 /\ MonthPost.is_overtime (loaded x) db' = Ok false db'.
Proof.
  destruct (due_sweep_leaves_young_rows Sample.club Sample.db_due eq_refl)
    as (db' & Hc & Hposts & _).
  exists db'. now split.
Defined.

(** ** Upserts *)

Lemma filter_map_fixed {A} (q : A -> bool) (h : A -> A) (l : list A) :
  (forall x, In x l -> h x = x \/ (q x = false /\ q (h x) = false)) ->
  filter q (map h l) = filter q l.
Proof.
  induction l as [| x l IH]; cbn; intros Hh; [reflexivity |].
  rewrite IH by (intros y Hy; apply Hh; now right).
  destruct (Hh x (or_introl eq_refl)) as [-> | [-> ->]]; reflexivity.
Qed.

Lemma filter_map_length {A} (q : A -> bool) (h : A -> A) (l : list A) :
  (forall x, In x l -> q (h x) = q x) ->
  List.length (filter q (map h l)) = List.length (filter q l).
Proof.
  induction l as [| x l IH]; cbn; intros Hh; [reflexivity |].
  rewrite (Hh x) by now left.
  destruct (q x); cbn; rewrite IH; trivial; intros y Hy; apply Hh; now right.
Qed.

Lemma for_each_app {A} (l1 l2 : list A) (body : A -> M unit) (db db1 : DB) :
  for_each l1 body db = Ok tt db1 ->
  for_each (l1 ++ l2) body db = for_each l2 body db1.
Proof.
  revert db. induction l1 as [| x l1 IH]; cbn [for_each app]; intros db.
  - unfold ret. now intros [= ->].
  - unfold bind. destruct (body x db) as [[] db0 | e]; [apply IH | discriminate].
Qed.

Section UpsertFacts.
Context {F : Type}.
Variables (p : F -> bool) (fresh : F) (change : F -> F).
Hypothesis p_fresh : p fresh = true.
Hypothesis p_change : forall f, p (change f) = p f.

(** In a table with distinct keys the overwritten row is the only row
    under its key. *)
Lemma overwritten_row (t : Table F) i f rest x :
  NoDup (map fst (rows t)) ->
  matching p t = (i, f) :: rest ->
  In x (rows t) -> has_pk i x = true -> x = (i, f).
Proof.
  intros Hnd Hm Hx Hk.
  destruct (matching_head_stored _ _ _ _ Hm) as (_ & Hin & _).
  apply (NoDup_key_inj (rows t)); trivial.
  now apply Z.eqb_eq in Hk.
Qed.

Lemma upsert_table_well_keyed (t : Table F) :
  well_keyed t -> well_keyed (upsert_table p fresh change t).
Proof.
  intros [Hnd Hlt]. unfold upsert_table.
  destruct (matching p t) as [| [i f] rest] eqn:Hm; split; cbn [rows next_id].
  - rewrite map_app. cbn. apply NoDup_app; [exact Hnd | repeat constructor; intros [] |].
    intros k Hk [<- | []].
    apply in_map_iff in Hk. destruct Hk as (y & Hy & Hin).
    rewrite Forall_forall in Hlt. specialize (Hlt y Hin). lia.
  - apply Forall_app. split.
    + eapply Forall_impl; [| exact Hlt]. cbn. intros; lia.
    + repeat constructor. cbn. lia.
  - rewrite map_map.
    rewrite (map_ext (fun x => fst (if has_pk i x then (i, change f) else x)) fst);
      [exact Hnd |].
    intros x. destruct (has_pk i x) eqn:Hk; [| reflexivity].
    cbn. symmetry. now apply Z.eqb_eq in Hk.
  - apply Forall_forall. intros x Hx.
    apply in_map_iff in Hx. destruct Hx as (y & <- & Hy).
    rewrite Forall_forall in Hlt. specialize (Hlt y Hy).
    destruct (has_pk i y) eqn:Hk; [| exact Hlt].
    cbn. apply Z.eqb_eq in Hk. lia.
Qed.

(** The rows selected by a predicate disjoint from [p] are left alone. *)
Lemma upsert_table_other (q : F -> bool) (t : Table F) :
  NoDup (map fst (rows t)) ->
  (forall f, p f = true -> q f = false) ->
  matching q (upsert_table p fresh change t) = matching q t.
Proof.
  intros Hnd Hq. unfold upsert_table.
  destruct (matching p t) as [| [i f] rest] eqn:Hm.
  - rewrite matching_app. cbn [snd]. rewrite (Hq fresh p_fresh).
    unfold matching. cbn [rows]. apply app_nil_r.
  - unfold matching. cbn [rows].
    apply filter_map_fixed. intros x Hx.
    destruct (has_pk i x) eqn:Hk; [| now left]. right.
    rewrite (overwritten_row t i f rest x Hnd Hm Hx Hk).
    destruct (matching_head_stored _ _ _ _ Hm) as (_ & _ & Hp).
    cbn [snd] in *. split; apply Hq; [exact Hp | now rewrite p_change].
Qed.

(** [p] selects one row after an upsert into a table without rows of
    [p], and as many as before otherwise. *)
Lemma upsert_table_count (t : Table F) :
  NoDup (map fst (rows t)) ->
  count p (upsert_table p fresh change t) = Nat.max 1 (count p t).
Proof.
  intros Hnd. unfold upsert_table, count.
  destruct (matching p t) as [| [i f] rest] eqn:Hm.
  - rewrite matching_app. unfold matching in *. cbn [rows snd].
    now rewrite Hm, p_fresh.
  - unfold matching at 1. cbn [rows].
    rewrite filter_map_length.
    + fold (matching p t). rewrite Hm. cbn. lia.
    + intros x Hx. destruct (has_pk i x) eqn:Hk; [| reflexivity].
      rewrite (overwritten_row t i f rest x Hnd Hm Hx Hk). cbn [snd]. apply p_change.
Qed.
End UpsertFacts.

(** ** More on the activity counters *)

Lemma activity_call_upsert (c : activity_call) (db : DB) :
  exists fresh change,
    run_activity_call c db
    = Ok tt (upsert_counter (fst (call_pair c)) (snd (call_pair c)) fresh change db)
    /\ UserActivity.of_ (fst (call_pair c)) (snd (call_pair c)) fresh = true
    /\ (forall r, UserActivity.of_ (fst (call_pair c)) (snd (call_pair c)) (change r)
                  = UserActivity.of_ (fst (call_pair c)) (snd (call_pair c)) r).
Proof.
  destruct c as [u g | u g | u g | u g]; cbn [run_activity_call call_pair fst snd];
    eexists; eexists;
    (split; [ first [ apply add_post_count_upsert | apply add_comment_count_upsert
                    | apply sub_post_count_upsert | apply sub_comment_count_upsert ] |]);
    (split; [apply of_new |]); intros r; try reflexivity;
    now destruct (_ >? 0).
Qed.

(** X7.  The store is one of a database whose counter columns have the
    top value [top].  When the post counter of the pair is below [top],
    [add_post_count] returns and raises that counter by exactly one, a
    missing row counting as 0, leaving the comment counter of the pair
    as it is and the counters within the range; when it is at [top],
    the call raises.  [add_comment_count] does the same with the two
    counters exchanged. *)
Theorem add_count_increments (top : Z) (user : FBUser) (group : Group) (db : DB) :
  counters_in_column top db = true ->
  (post_count_of user group db < top ->
   exists db',
     within_column top (UserActivity.add_post_count user group) db = Ok tt db'
     /\ post_count_of user group db' = post_count_of user group db + 1
     /\ comment_count_of user group db' = comment_count_of user group db
     /\ counters_in_column top db' = true)
  /\ (post_count_of user group db = top ->
      within_column top (UserActivity.add_post_count user group) db = Raise DataError)
  /\ (comment_count_of user group db < top ->
      exists db',
        within_column top (UserActivity.add_comment_count user group) db = Ok tt db'
        /\ comment_count_of user group db' = comment_count_of user group db + 1
        /\ post_count_of user group db' = post_count_of user group db
        /\ counters_in_column top db' = true)
  /\ (comment_count_of user group db = top ->
      within_column top (UserActivity.add_comment_count user group) db
      = Raise DataError).
Proof.
  intros Hdb. split; [| split; [| split]].
  - intros Hc.
    destruct (add_post_count_within top user group db Hdb Hc) as (db' & Hw & Ha & Hin).
    exists db'. split; [exact Hw |].
    rewrite add_post_count_upsert in Ha. injection Ha as <-.
    split; [| split; [| exact Hin]];
      unfold post_count_of, comment_count_of;
      rewrite upsert_counter_field by (try apply of_new; reflexivity);
      unfold counter_of; destruct (matching _ _) as [| x rest]; cbn; lia.
  - now apply add_post_count_refused.
  - intros Hc.
    destruct (add_comment_count_within top user group db Hdb Hc)
      as (db' & Hw & Ha & Hin).
    exists db'. split; [exact Hw |].
    rewrite add_comment_count_upsert in Ha. injection Ha as <-.
    split; [| split; [| exact Hin]];
      unfold post_count_of, comment_count_of;
      rewrite upsert_counter_field by (try apply of_new; reflexivity);
      unfold counter_of; destruct (matching _ _) as [| x rest]; cbn; lia.
  - now apply add_comment_count_refused.
Qed.

Lemma add_count_increments_witness :
  (exists db',
      within_column IntegerField_max
                    (UserActivity.add_post_count Sample.alice Sample.club)
                    (Sample.db_full 41) = Ok tt db'
      /\ post_count_of Sample.alice Sample.club db' = 42)
  /\ within_column IntegerField_max
                   (UserActivity.add_post_count Sample.alice Sample.club)
                   (Sample.db_full IntegerField_max) = Raise DataError.
Proof.
  split.
  - destruct (proj1 (add_count_increments IntegerField_max Sample.alice Sample.club
                       (Sample.db_full 41) eq_refl) eq_refl)
      as (db' & Hw & Hc & _).
    exists db'. split; [exact Hw | exact Hc].
  - exact (proj1 (proj2 (add_count_increments IntegerField_max Sample.alice Sample.club
                           (Sample.db_full IntegerField_max) eq_refl)) eq_refl).
Defined.

(** X8.  [sub_post_count] always returns and leaves the post counter of
    its pair at the larger of 0 and its value minus one, a missing row
    counting as 0, leaving the comment counter of the pair as it is;
    [sub_comment_count] does the same with the two counters exchanged. *)
Theorem sub_count_decrements_to_floor (user : FBUser) (group : Group) (db : DB) :
  (exists db',
      UserActivity.sub_post_count user group db = Ok tt db'
      /\ post_count_of user group db' = Z.max 0 (post_count_of user group db - 1)
      /\ comment_count_of user group db' = comment_count_of user group db)
  /\ (exists db',
      UserActivity.sub_comment_count user group db = Ok tt db'
      /\ comment_count_of user group db' = Z.max 0 (comment_count_of user group db - 1)
      /\ post_count_of user group db' = post_count_of user group db).
Proof.
  split; eexists;
    (split; [first [apply sub_post_count_upsert | apply sub_comment_count_upsert] |]);
    unfold post_count_of, comment_count_of;
    rewrite !upsert_counter_field
      by (try apply of_new; intros r; now destruct (_ >? 0));
    unfold counter_of; destruct (matching _ _) as [| x rest]; cbn; try (split; lia).
  - destruct (Z.gtb_spec (UserActivity_post_count (snd x)) 0); cbn; split; lia.
  - destruct (Z.gtb_spec (UserActivity_comment_count (snd x)) 0); cbn; split; lia.
Qed.

Lemma upsert_counter_as_table user group fresh change (db : DB) :
  upsert_counter user group fresh change db
  = set_objects (upsert_table (UserActivity.of_ user group) fresh change
                              (UserActivity_objects db)) db.
Proof. reflexivity. Qed.

Lemma add_post_count_plus_one (user : FBUser) (group : Group) (db : DB) :
  exists db',
    UserActivity.add_post_count user group db = Ok tt db'
    /\ post_count_of user group db' = post_count_of user group db + 1.
Proof.
  eexists. split; [apply add_post_count_upsert |].
  unfold post_count_of.
  rewrite upsert_counter_field by (try apply of_new; reflexivity).
  unfold counter_of. destruct (matching _ _) as [| x rest]; cbn; lia.
Qed.

Lemma sub_post_count_minus_one (user : FBUser) (group : Group) (db : DB) :
  exists db',
    UserActivity.sub_post_count user group db = Ok tt db'
    /\ post_count_of user group db' = Z.max 0 (post_count_of user group db - 1).
Proof.
  eexists. split; [apply sub_post_count_upsert |].
  unfold post_count_of.
  rewrite upsert_counter_field by (try apply of_new; intros r; now destruct (_ >? 0)).
  unfold counter_of. destruct (matching _ _) as [| x rest]; cbn; [lia |].
  destruct (Z.gtb_spec (UserActivity_post_count (snd x)) 0); cbn; lia.
Qed.

Lemma repeated_add_within (top : Z) (user : FBUser) (group : Group) (k : nat) (db : DB) :
  counters_in_column top db = true ->
  post_count_of user group db + Z.of_nat k <= top ->
  exists db',
    for_each (repeat (Add_post_count user group) k) (run_activity_call_within top) db
    = Ok tt db'
    /\ post_count_of user group db' = post_count_of user group db + Z.of_nat k
    /\ counters_in_column top db' = true.
Proof.
  revert db. induction k as [| k IH]; intros db Hdb Hk.
  - exists db. split; [reflexivity |]. split; [cbn; lia | exact Hdb].
  - destruct (add_post_count_within top user group db Hdb ltac:(lia))
      as (db1 & Hw & Ha & Hdb1).
    destruct (add_post_count_plus_one user group db) as (d & Hd & Hc).
    rewrite Ha in Hd. injection Hd as <-.
    destruct (IH db1 Hdb1 ltac:(lia)) as (db' & Hrest & Hc' & Hdb').
    exists db'. split; [| split; [lia | exact Hdb']].
    cbn [repeat for_each]. unfold bind.
    unfold run_activity_call_within at 1. cbn [run_activity_call].
    now rewrite Hw.
Qed.

Lemma repeated_sub_within (top : Z) (user : FBUser) (group : Group) (j : nat) (db : DB) :
  counters_in_column top db = true ->
  0 <= top ->
  exists db',
    for_each (repeat (Sub_post_count user group) j) (run_activity_call_within top) db
    = Ok tt db'
    /\ (0 <= post_count_of user group db ->
        post_count_of user group db'
        = Z.max 0 (post_count_of user group db - Z.of_nat j))
    /\ counters_in_column top db' = true.
Proof.
  intros Hdb Htop. revert db Hdb. induction j as [| j IH]; intros db Hdb.
  - exists db. split; [reflexivity |]. split; [cbn; lia | exact Hdb].
  - destruct (sub_post_count_within top user group db Hdb Htop)
      as (db1 & Hw & Hs & Hdb1).
    destruct (sub_post_count_minus_one user group db) as (d & Hd & Hc).
    rewrite Hs in Hd. injection Hd as <-.
    destruct (IH db1 Hdb1) as (db' & Hrest & Hc' & Hdb').
    exists db'. split; [| split; [| exact Hdb']].
    + cbn [repeat for_each]. unfold bind.
      unfold run_activity_call_within at 1. cbn [run_activity_call].
      now rewrite Hw.
    + intros H0. rewrite Hc' by lia. lia.
Qed.

(** X9.  The store is one of a database whose counter columns have the
    top value [top].  From a post counter [c >= 0] of a pair, [k] calls
    of [add_post_count] with [c + k <= top], followed by [j] calls of
    [sub_post_count] for the pair, all return and leave the counter at
    the larger of 0 and [c + k - j]; as many subtractions as additions
    bring it back to [c]. *)
Theorem adds_then_subs_post_count
        (top : Z) (user : FBUser) (group : Group) (k j : nat) (db : DB) :
  counters_in_column top db = true ->
  0 <= post_count_of user group db ->
  post_count_of user group db + Z.of_nat k <= top ->
  exists db',
    for_each (repeat (Add_post_count user group) k
              ++ repeat (Sub_post_count user group) j)%list
             (run_activity_call_within top) db = Ok tt db'
    /\ post_count_of user group db'
       = Z.max 0 (post_count_of user group db + Z.of_nat k - Z.of_nat j)
    /\ (k = j -> post_count_of user group db' = post_count_of user group db).
Proof.
  intros Hdb Hc Hk.
  destruct (repeated_add_within top user group k db Hdb Hk) as (db1 & Hadd & Hc1 & Hdb1).
  destruct (repeated_sub_within top user group j db1 Hdb1 ltac:(lia))
    as (db' & Hsub & Hc' & _).
  exists db'. split; [| split].
  - rewrite (for_each_app _ _ _ db db1 Hadd). exact Hsub.
  - rewrite Hc' by lia. now rewrite Hc1.
  - intros ->. rewrite Hc' by lia. lia.
Qed.

Lemma adds_then_subs_post_count_witness :
  exists db',
    for_each (repeat (Add_post_count Sample.alice Sample.club) 3
              ++ repeat (Sub_post_count Sample.alice Sample.club) 5)%list
             (run_activity_call_within IntegerField_max) (Sample.db_at 0) = Ok tt db'
    /\ post_count_of Sample.alice Sample.club db' = 0.
Proof.
  destruct (adds_then_subs_post_count IntegerField_max Sample.alice Sample.club 3 5
              (Sample.db_at 0))
    as (db' & Hrun & Hc & _).
  - reflexivity.
  - vm_compute. discriminate.
  - vm_compute. discriminate.
  - exists db'. split; [exact Hrun | exact Hc].
Defined.

Lemma of_other_pair (user : FBUser) (group : Group) (user' : FBUser) (group' : Group) f :
  other_pair user group user' group' ->
  UserActivity.of_ user group f = true -> UserActivity.of_ user' group' f = false.
Proof.
  unfold UserActivity.of_. intros Ho Hf.
  apply andb_true_iff in Hf. destruct Hf as [Hu Hg].
  apply String.eqb_eq in Hu, Hg.
  apply andb_false_iff.
  destruct Ho as [Ho | Ho]; [left | right]; apply String.eqb_neq; congruence.
Qed.

Lemma counter_call_other_rows (c : activity_call) (user' : FBUser) (group' : Group)
      (db : DB) :
  NoDup (map fst (rows (UserActivity_objects db))) ->
  other_pair (fst (call_pair c)) (snd (call_pair c)) user' group' ->
  exists db',
    run_activity_call c db = Ok tt db'
    /\ matching (UserActivity.of_ user' group') (UserActivity_objects db')
       = matching (UserActivity.of_ user' group') (UserActivity_objects db)
    /\ now db' = now db
    /\ GroupStatisticsUpdateList_objects db' = GroupStatisticsUpdateList_objects db
    /\ MonthPost_objects db' = MonthPost_objects db
    /\ MonthComment_objects db' = MonthComment_objects db.
Proof.
  intros Hnd Ho.
  destruct (activity_call_upsert c db) as (fresh & change & Hrun & Hfresh & Hchange).
  eexists. split; [exact Hrun |].
  rewrite upsert_counter_as_table. cbn [set_objects UserActivity_Model
    UserActivity_objects now GroupStatisticsUpdateList_objects MonthPost_objects
    MonthComment_objects].
  split; [| now repeat split].
  apply upsert_table_other; trivial.
  intros f. now apply of_other_pair.
Qed.

(** X10.  In a table with distinct primary keys, a call of one of the
    four counter helpers for one pair leaves both counters of every
    other pair as they are, and touches neither the clock nor any other
    table. *)
Theorem counter_call_leaves_other_pairs
        (c : activity_call) (user' : FBUser) (group' : Group) (db : DB) :
  NoDup (map fst (rows (UserActivity_objects db))) ->
  other_pair (fst (call_pair c)) (snd (call_pair c)) user' group' ->
  exists db',
    run_activity_call c db = Ok tt db'
    /\ post_count_of user' group' db' = post_count_of user' group' db
    /\ comment_count_of user' group' db' = comment_count_of user' group' db
    /\ now db' = now db
    /\ GroupStatisticsUpdateList_objects db' = GroupStatisticsUpdateList_objects db
    /\ MonthPost_objects db' = MonthPost_objects db
    /\ MonthComment_objects db' = MonthComment_objects db.
Proof.
  intros Hnd Ho.
  destruct (counter_call_other_rows c user' group' db Hnd Ho)
    as (db' & Hrun & Hm & Hframe).
  exists db'. split; [exact Hrun |].
  unfold post_count_of, comment_count_of, counter_of. rewrite Hm.
  repeat split; apply Hframe.
Qed.

Lemma counter_call_leaves_other_pairs_witness :
  exists db',
    run_activity_call (Sub_post_count Sample.alice (Post_group (Sample.post_at "p" 0)))
                      Sample.db_in_debt = Ok tt db'
    /\ post_count_of Sample.alice
         {| Group_id := "g2"; Group_name := ""; Group_description := None;
            Group_updated_time := 0; Group_privacy := ""; Group_is_stored := false;
            Group_post_count := 0; Group_comment_count := 0; Group_owner := None |} db'
       = 0.
Proof.
  destruct (counter_call_leaves_other_pairs
              (Sub_post_count Sample.alice (Post_group (Sample.post_at "p" 0)))
              Sample.alice
              {| Group_id := "g2"; Group_name := ""; Group_description := None;
                 Group_updated_time := 0; Group_privacy := ""; Group_is_stored := false;
                 Group_post_count := 0; Group_comment_count := 0; Group_owner := None |}
              Sample.db_in_debt)
    as (db' & Hrun & Hp & _).
  - cbn. repeat constructor. intros [].
  - right. cbn. discriminate.
  - exists db'. split; [exact Hrun |]. rewrite Hp. reflexivity.
Defined.

Lemma counter_call_keeps_keys (c : activity_call) (db : DB) :
  well_keyed (UserActivity_objects db) ->
  one_row_per_pair db ->
  exists db',
    run_activity_call c db = Ok tt db'
    /\ well_keyed (UserActivity_objects db')
    /\ one_row_per_pair db'.
Proof.
  intros Hwk Hone.
  destruct (activity_call_upsert c db) as (fresh & change & Hrun & Hfresh & Hchange).
  eexists. split; [exact Hrun |].
  rewrite upsert_counter_as_table.
  cbn [set_objects UserActivity_Model]. unfold one_row_per_pair.
  cbn [UserActivity_objects].
  split; [now apply upsert_table_well_keyed |].
  intros user' group'.
  destruct (call_pair c) as [user group]. cbn [fst snd] in *.
  destruct (String.eqb_spec (FBUser_id user) (FBUser_id user')) as [Eu | Nu];
    [destruct (String.eqb_spec (Group_id group) (Group_id group')) as [Eg | Ng] |].
  - assert (Hsame : forall t, count (UserActivity.of_ user' group') t
                              = count (UserActivity.of_ user group) t).
    { intros t. unfold count, matching, UserActivity.of_. now rewrite Eu, Eg. }
    rewrite Hsame, upsert_table_count by (trivial; apply Hwk).
    specialize (Hone user group). lia.
  - unfold count. rewrite upsert_table_other; trivial; [apply Hone | apply Hwk |].
    intros f. apply of_other_pair. now right.
  - unfold count. rewrite upsert_table_other; trivial; [apply Hone | apply Hwk |].
    intros f. apply of_other_pair. now left.
Qed.

(** The rows after an upsert: the old rows, the fresh row, or a changed
    old row. *)
Lemma upsert_counter_rows user group fresh change (db : DB) (x' : Z * UserActivity) :
  In x' (rows (UserActivity_objects (upsert_counter user group fresh change db))) ->
  In x' (rows (UserActivity_objects db))
  \/ snd x' = fresh
  \/ exists x, In x (rows (UserActivity_objects db)) /\ snd x' = change (snd x).
Proof.
  unfold upsert_counter. cbn [set_objects UserActivity_Model UserActivity_objects].
  destruct (matching (UserActivity.of_ user group) (UserActivity_objects db))
    as [| [i f] rest] eqn:Hm; cbn [rows]; intros Hx.
  - apply in_app_or in Hx. destruct Hx as [Hx | [<- | []]]; [now left | right; now left].
  - apply in_map_iff in Hx. destruct Hx as (y & <- & Hy).
    destruct (has_pk i y); [| now left].
    right. right. exists (i, f). split; [| reflexivity].
    now destruct (matching_head_stored _ _ _ _ Hm) as (_ & Hin & _).
Qed.

(** What each helper writes: a fresh row with counters 0 or 1, or a row
    whose counters moved by at most one, a counter below 0 going to 0. *)
Lemma activity_call_bounds (c : activity_call) :
  exists fresh change,
    (forall db, run_activity_call c db
                = Ok tt (upsert_counter (fst (call_pair c)) (snd (call_pair c))
                                        fresh change db))
    /\ 0 <= UserActivity_post_count fresh <= 1
    /\ 0 <= UserActivity_comment_count fresh <= 1
    /\ (forall r,
           Z.min (UserActivity_post_count r) 0 <= UserActivity_post_count (change r)
           /\ UserActivity_post_count (change r) <= Z.max (UserActivity_post_count r + 1) 0
           /\ Z.min (UserActivity_comment_count r) 0
              <= UserActivity_comment_count (change r)
           /\ UserActivity_comment_count (change r)
              <= Z.max (UserActivity_comment_count r + 1) 0).
Proof.
  destruct c as [u g | u g | u g | u g]; cbn [call_pair fst snd run_activity_call];
    eexists; eexists;
    (split; [ intros db;
              first [ apply add_post_count_upsert | apply add_comment_count_upsert
                    | apply sub_post_count_upsert | apply sub_comment_count_upsert ] |]);
    (split; [cbn; lia |]); (split; [cbn; lia |]); intros r.
  - cbn. lia.
  - cbn. lia.
  - destruct (Z.gtb_spec (UserActivity_post_count r) 0); cbn; lia.
  - destruct (Z.gtb_spec (UserActivity_comment_count r) 0); cbn; lia.
Qed.

(** With every counter at most [b < top], a call is accepted by the
    database and leaves every counter at most [b + 1]. *)
Lemma activity_call_within_step (top b : Z) (c : activity_call) (db : DB) :
  counters_in_column top db = true ->
  counters_at_most b db ->
  0 <= b < top ->
  exists db',
    run_activity_call_within top c db = Ok tt db'
    /\ counters_in_column top db' = true
    /\ counters_at_most (b + 1) db'.
Proof.
  intros Hdb Hb Hrange.
  destruct (activity_call_bounds c)
    as (fresh & change & Hrun & Hfp & Hfc & Hchange).
  unfold counters_at_most in *. rewrite Forall_forall in Hb.
  assert (Hrows : forall x',
             In x' (rows (UserActivity_objects
                            (upsert_counter (fst (call_pair c)) (snd (call_pair c))
                                            fresh change db))) ->
             row_in_column top (snd x') = true
             /\ UserActivity_post_count (snd x') <= b + 1
             /\ UserActivity_comment_count (snd x') <= b + 1).
  { intros x' Hx'. apply upsert_counter_rows in Hx'.
    destruct Hx' as [Hold | [-> | (x & Hx & ->)]].
    - pose proof (Hb x' Hold). split; [now apply (stored_row_in_column top db) | lia].
    - split; [apply row_in_column_iff |]; lia.
    - pose proof (Hb x Hx) as Hbx.
      pose proof (proj1 (row_in_column_iff top (snd x))
                        (stored_row_in_column top db x Hdb Hx)) as Hcol.
      specialize (Hchange (snd x)).
      split; [apply row_in_column_iff |]; lia. }
  eexists. split; [| split].
  - unfold run_activity_call_within.
    eapply within_column_accepts; [apply Hrun |].
    apply forallb_forall. intros x' Hx'. now apply Hrows.
  - apply forallb_forall. intros x' Hx'. now apply Hrows.
  - apply Forall_forall. intros x' Hx'. now apply Hrows.
Qed.

Lemma activity_calls_within_return (top : Z) (calls : list activity_call) (b : Z) (db : DB) :
  counters_in_column top db = true ->
  counters_at_most b db ->
  0 <= b ->
  b + Z.of_nat (List.length calls) <= top ->
  exists db', for_each calls (run_activity_call_within top) db = Ok tt db'.
Proof.
  revert b db. induction calls as [| c calls IH]; intros b db Hdb Hb H0 Hlen.
  - now exists db.
  - cbn [List.length] in Hlen.
    destruct (activity_call_within_step top b c db Hdb Hb ltac:(lia))
      as (db1 & Hrun & Hdb1 & Hb1).
    destruct (IH (b + 1) db1 Hdb1 Hb1 ltac:(lia) ltac:(lia)) as (db' & Hrest).
    exists db'. cbn [for_each]. unfold bind. now rewrite Hrun.
Qed.

Lemma activity_calls_within_keep_keys (top : Z) (calls : list activity_call) (db db' : DB) :
  well_keyed (UserActivity_objects db) ->
  one_row_per_pair db ->
  counters_in_column top db = true ->
  for_each calls (run_activity_call_within top) db = Ok tt db' ->
  well_keyed (UserActivity_objects db')
  /\ one_row_per_pair db'
  /\ counters_in_column top db' = true.
Proof.
  revert db. induction calls as [| c calls IH]; intros db Hwk Hone Hdb.
  - cbn [for_each]. unfold ret. intros [= <-].
    split; [exact Hwk | split; assumption].
  - cbn [for_each]. unfold bind.
    destruct (run_activity_call_within top c db) as [[] db1 | e] eqn:Hrun;
      [| discriminate].
    apply within_column_returned in Hrun. destruct Hrun as [Hrun Hdb1].
    destruct (counter_call_keeps_keys c db Hwk Hone) as (d & Hd & Hwk1 & Hone1).
    rewrite Hrun in Hd. injection Hd as <-.
    now apply IH.
Qed.

(** X11.  The store is one of a database whose counter columns have the
    top value [top], with distinct primary keys and at most one row per
    (user, group) pair, which an empty table has.  Every sequence of
    calls of the four counter helpers that returns leaves such a store:
    the helpers never create a second row for a pair.  The sequence
    returns whenever every counter is at most [b >= 0] and [b] plus the
    number of calls does not exceed [top]. *)
Theorem counter_calls_keep_one_row_per_pair
        (top : Z) (calls : list activity_call) (db : DB) :
  well_keyed (UserActivity_objects db) ->
  one_row_per_pair db ->
  counters_in_column top db = true ->
  (forall db',
      for_each calls (run_activity_call_within top) db = Ok tt db' ->
      well_keyed (UserActivity_objects db')
      /\ one_row_per_pair db'
      /\ counters_in_column top db' = true)
  /\ (forall b : Z,
         counters_at_most b db ->
         0 <= b ->
         b + Z.of_nat (List.length calls) <= top ->
         exists db', for_each calls (run_activity_call_within top) db = Ok tt db').
Proof.
  intros Hwk Hone Hdb. split.
  - intros db'. now apply activity_calls_within_keep_keys.
  - intros b Hb H0 Hlen. now apply (activity_calls_within_return top calls b).
Qed.

Lemma counter_calls_keep_one_row_per_pair_witness :
  exists db',
    for_each [Add_post_count Sample.alice Sample.club;
              Sub_comment_count Sample.alice Sample.club;
              Add_post_count Sample.alice Sample.club]
             (run_activity_call_within IntegerField_max) (Sample.db_at 0) = Ok tt db'
    /\ well_keyed (UserActivity_objects db')
    /\ one_row_per_pair db'
    /\ counters_in_column IntegerField_max db' = true.
Proof.
  destruct (counter_calls_keep_one_row_per_pair IntegerField_max
              [Add_post_count Sample.alice Sample.club;
               Sub_comment_count Sample.alice Sample.club;
               Add_post_count Sample.alice Sample.club]
              (Sample.db_at 0))
    as [Hkeep Hreturn].
  - split; cbn; constructor.
  - intros user group. cbn. lia.
  - reflexivity.
  - destruct (Hreturn 0) as [db' Hrun].
    + constructor.
    + lia.
    + vm_compute. discriminate.
    + exists db'. split; [exact Hrun | now apply Hkeep].
Defined.

(** ** More on the refresh gate and the sweep *)

Lemma update_as_upsert (group : Group) (method : string) (db : DB) :
  GroupStatisticsUpdateList.update group method db =
  Ok tt (with_gates
           (upsert_table (GroupStatisticsUpdateList.of_ group method)
                         (gate_row group method (now db))
                         (set_updated_time (now db))
                         (GroupStatisticsUpdateList_objects db)) db).
Proof.
  rewrite update_table. unfold gate, upsert_table, touched.
  now destruct (matching _ _) as [| [i f] rest].
Qed.

Lemma of_other_key (group : Group) (method : string) (group' : Group) (method' : string) f :
  Group_id group <> Group_id group' \/ method <> method' ->
  GroupStatisticsUpdateList.of_ group method f = true ->
  GroupStatisticsUpdateList.of_ group' method' f = false.
Proof.
  unfold GroupStatisticsUpdateList.of_. intros Ho Hf.
  apply andb_true_iff in Hf. destruct Hf as [Hg Hm].
  apply String.eqb_eq in Hg, Hm.
  apply andb_false_iff.
  destruct Ho as [Ho | Ho]; [left | right]; apply String.eqb_neq; congruence.
Qed.

(** Stamping or creating the gate row of one key keeps the keys of the
    gate table in order. *)
Lemma upsert_gate_keeps_keys (group : Group) (method : string) (t : datetime)
      (gates : Table GroupStatisticsUpdateList) :
  well_keyed gates ->
  (forall g m, (count (GroupStatisticsUpdateList.of_ g m) gates <= 1)%nat) ->
  well_keyed (upsert_table (GroupStatisticsUpdateList.of_ group method)
                           (gate_row group method t) (set_updated_time t) gates)
  /\ (forall g m,
         (count (GroupStatisticsUpdateList.of_ g m)
                (upsert_table (GroupStatisticsUpdateList.of_ group method)
                              (gate_row group method t) (set_updated_time t) gates)
          <= 1)%nat).
Proof.
  intros Hwk Hone.
  split; [apply upsert_table_well_keyed; exact Hwk |].
  intros g m.
  destruct (String.eqb_spec (Group_id group) (Group_id g)) as [Eg | Ng];
    [destruct (String.eqb_spec method m) as [Em | Nm] |].
  - assert (Hsame : forall t0, count (GroupStatisticsUpdateList.of_ g m) t0
                               = count (GroupStatisticsUpdateList.of_ group method) t0).
    { intros t0. unfold count, matching, GroupStatisticsUpdateList.of_.
      now rewrite Eg, Em. }
    rewrite Hsame, upsert_table_count;
      [| apply of_gate_row | reflexivity | apply Hwk].
    specialize (Hone group method). lia.
  - unfold count. rewrite upsert_table_other;
      [apply Hone | apply of_gate_row | reflexivity | apply Hwk |].
    intros f. apply of_other_key. now right.
  - unfold count. rewrite upsert_table_other;
      [apply Hone | apply of_gate_row | reflexivity | apply Hwk |].
    intros f. apply of_other_key. now left.
Qed.

(** The gate table after [check]: an upsert of the sweep's key, or the
    table as it was. *)
Lemma check_result_gates (group : Group) (db : DB) :
  GroupStatisticsUpdateList_objects (check_result group db)
  = upsert_table (GroupStatisticsUpdateList.of_ group "month_content")
                 (gate_row group "month_content" (now db))
                 (set_updated_time (now db))
                 (GroupStatisticsUpdateList_objects db)
  \/ GroupStatisticsUpdateList_objects (check_result group db)
     = GroupStatisticsUpdateList_objects db.
Proof.
  unfold check_result, gate, upsert_table, touched.
  destruct (matching _ _) as [| [i f] rest]; cbn [hd_error].
  - now left.
  - destruct (due (now db) f); [now left | now right].
Qed.

Lemma month_call_gates (c : month_call) (db : DB) :
  exists db',
    run_month_call c db = Ok tt db'
    /\ ((exists group method t,
            GroupStatisticsUpdateList_objects db'
            = upsert_table (GroupStatisticsUpdateList.of_ group method)
                           (gate_row group method t) (set_updated_time t)
                           (GroupStatisticsUpdateList_objects db))
        \/ GroupStatisticsUpdateList_objects db' = GroupStatisticsUpdateList_objects db).
Proof.
  destruct c as [g | post | comment | g m | dt]; cbn [run_month_call].
  - eexists. split; [apply check_runs |].
    destruct (check_result_gates g db) as [-> | ->]; [left | now right].
    now exists g, "month_content", (now db).
  - eexists. split; [apply MonthPost_create_runs |].
    assert (E : GroupStatisticsUpdateList_objects
                  (inserted_unless (MonthPost.of_post post) (MonthPost.new post)
                                   (check_result (Post_group post) db))
                = GroupStatisticsUpdateList_objects (check_result (Post_group post) db))
      by (unfold inserted_unless; now destruct (nonempty _)).
    rewrite E.
    destruct (check_result_gates (Post_group post) db) as [-> | ->]; [left | now right].
    now exists (Post_group post), "month_content", (now db).
  - eexists. split; [apply MonthComment_create_runs |].
    assert (E : GroupStatisticsUpdateList_objects
                  (inserted_unless (MonthComment.of_comment comment)
                                   (MonthComment.new comment)
                                   (check_result (Comment_group comment) db))
                = GroupStatisticsUpdateList_objects
                    (check_result (Comment_group comment) db))
      by (unfold inserted_unless; now destruct (nonempty _)).
    rewrite E.
    destruct (check_result_gates (Comment_group comment) db) as [-> | ->];
      [left | now right].
    now exists (Comment_group comment), "month_content", (now db).
  - eexists. split; [apply update_as_upsert |]. left.
    now exists g, m, (now db).
  - eexists. split; [reflexivity |]. now right.
Qed.

(** X12.  Starting from a gate table with distinct primary keys and at
    most one row per (group, method) key, which an empty table is, any
    sequence of checks, shadow creations, gate updates and waits returns
    and leaves such a table: [update] and [check] never create a second
    gate row for a key. *)
Theorem month_calls_keep_one_row_per_key (calls : list month_call) (db : DB) :
  well_keyed (GroupStatisticsUpdateList_objects db) ->
  one_row_per_key db ->
  exists db',
    for_each calls run_month_call db = Ok tt db'
    /\ well_keyed (GroupStatisticsUpdateList_objects db')
    /\ one_row_per_key db'.
Proof.
  revert db. induction calls as [| c calls IH]; intros db Hwk Hone.
  - exists db. split; [reflexivity | split; assumption].
  - destruct (month_call_gates c db) as (db1 & Hrun & Hgates).
    assert (Hinv : well_keyed (GroupStatisticsUpdateList_objects db1)
                   /\ one_row_per_key db1).
    { unfold one_row_per_key in *.
      destruct Hgates as [(g & m & t & ->) | ->]; [| now split].
      now apply upsert_gate_keeps_keys. }
    destruct (IH db1 (proj1 Hinv) (proj2 Hinv)) as (db' & Hrest & Hinv').
    exists db'. split; [| exact Hinv'].
    cbn [for_each]. unfold bind. now rewrite Hrun.
Qed.

Lemma month_calls_keep_one_row_per_key_witness :
  exists db',
    for_each [Create_post (Sample.post_at "p1" 0); Wait (2 * day); Check Sample.club;
              Touch Sample.club "month_content"]
             run_month_call (Sample.db_at 0) = Ok tt db'
    /\ well_keyed (GroupStatisticsUpdateList_objects db')
    /\ one_row_per_key db'.
Proof.
  apply month_calls_keep_one_row_per_key.
  - split; cbn; constructor.
  - intros group method. cbn. lia.
Defined.

Lemma set_updated_time_same (r : GroupStatisticsUpdateList) :
  set_updated_time (GroupStatisticsUpdateList_updated_time r) r = r.
Proof. now destruct r. Qed.

(** X13.  On a gate table with distinct primary keys, [update] for a key
    followed at the same clock by a second [update] for the key leaves
    the store as the first call left it. *)
Theorem update_twice_is_update (group : Group) (method : string) (db : DB) :
  well_keyed (GroupStatisticsUpdateList_objects db) ->
  exists db',
    GroupStatisticsUpdateList.update group method db = Ok tt db'
    /\ GroupStatisticsUpdateList.update group method db' = Ok tt db'.
Proof.
  intros Hwk.
  pose proof (update_as_upsert group method db) as Hu.
  set (t' := upsert_table _ _ _ _) in Hu.
  assert (Hwk' : well_keyed t') by (apply upsert_table_well_keyed; exact Hwk).
  exists (with_gates t' db). split; [exact Hu |].
  assert (Hu0 := Hu). rewrite update_table in Hu0.
  destruct (update_gate group method db (with_gates t' db) Hu) as (i & r & Hg & Hr & _).
  rewrite (update_present group method (with_gates t' db) i r Hg).
  destruct (gate_present_matching _ _ _ _ Hg) as [rest Hm].
  destruct (matching_head_stored _ _ _ _ Hm) as (_ & Hin & _).
  cbn [with_gates set_objects GroupStatisticsUpdateList_Model
       GroupStatisticsUpdateList_objects now] in *.
  replace (touched i r (now db) (rows t')) with (rows t').
  - now rewrite table_eta.
  - unfold touched. rewrite <- (map_id (rows t')) at 1.
    apply map_ext_in. intros x Hx.
    destruct (has_pk i x) eqn:Hk; [| reflexivity].
    rewrite <- Hr, set_updated_time_same.
    apply (NoDup_key_inj (rows t')); trivial; [apply Hwk' |].
    now apply Z.eqb_eq in Hk.
Qed.

Lemma update_twice_is_update_witness :
  exists db',
    GroupStatisticsUpdateList.update Sample.club "month_content" Sample.db_due = Ok tt db'
    /\ GroupStatisticsUpdateList.update Sample.club "month_content" db' = Ok tt db'.
Proof.
  apply update_twice_is_update. split; cbn.
  - repeat constructor. intros [].
  - repeat constructor.
Defined.

(** After a check that found no gate row or a due one, the gate row
    carries the clock. *)
Lemma check_result_stamped (group : Group) (db : DB) :
  gate group "month_content" db = None \/ sweep_due group db = true ->
  exists i f,
    gate group "month_content" (check_result group db) = Some (i, f)
    /\ GroupStatisticsUpdateList_updated_time f = now db.
Proof.
  intros Hcase.
  pose proof (update_table group "month_content" db) as Hu.
  destruct (update_gate _ _ _ _ Hu) as (i & f & Hg & Hf & _).
  exists i, f. split; [| exact Hf].
  unfold check_result, sweep_due in *.
  destruct (gate group "month_content" db) as [[j r] |] eqn:Hgate.
  - destruct Hcase as [Hn | Hd]; [discriminate |]. rewrite Hd. exact Hg.
  - exact Hg.
Qed.

(** X14.  A check right after a check of the same group changes
    nothing.  After a check that created the gate row or ran the sweep,
    every check of that group made less than one day later changes
    nothing: the sweep runs at most once per day and group. *)
Theorem check_cooldown (group : Group) (db : DB) :
  exists db',
    check group db = Ok tt db'
    /\ check group db' = Ok tt db'
    /\ (gate group "month_content" db = None \/ sweep_due group db = true ->
        forall dt : timedelta,
          dt < day -> check group (advance dt db') = Ok tt (advance dt db')).
Proof.
  exists (check_result group db).
  split; [apply check_runs |]. split.
  - rewrite check_runs. f_equal.
    apply settled_check_result, check_result_settled.
  - intros Hcase dt Hdt.
    rewrite check_runs. f_equal. apply settled_check_result.
    destruct (check_result_stamped group db Hcase) as (i & f & Hg & Hf).
    exists i, f. split; [exact Hg |].
    rewrite due_iff. cbn [now advance]. rewrite Hf.
    rewrite (proj1 (check_result_frame group db)).
    rewrite Z.geb_leb. apply Z.leb_gt. lia.
Qed.

Lemma check_cooldown_witness :
  exists db',
    check Sample.club Sample.db_due = Ok tt db'
    /\ check Sample.club (advance (day - 1) db') = Ok tt (advance (day - 1) db').
Proof.
  destruct (check_cooldown Sample.club Sample.db_due) as (db' & Hc & _ & Hquiet).
  exists db'. split; [exact Hc |].
  apply Hquiet.
  - right. reflexivity.
  - vm_compute. reflexivity.
Defined.

(** X15.  [check] only ever deletes from the shadow tables: it always
    returns, every shadow row it leaves was there before, and the next
    primary key of either table stays as it was. *)
Theorem check_only_deletes (group : Group) (db : DB) :
  exists db',
    check group db = Ok tt db'
    /\ (forall x, In x (rows (MonthPost_objects db')) -> In x (rows (MonthPost_objects db)))
    /\ (forall x, In x (rows (MonthComment_objects db')) ->
                  In x (rows (MonthComment_objects db)))
    /\ next_id (MonthPost_objects db') = next_id (MonthPost_objects db)
    /\ next_id (MonthComment_objects db') = next_id (MonthComment_objects db).
Proof.
  exists (check_result group db). split; [apply check_runs |].
  split; [| split; [| split]].
  - unfold check_result.
    destruct (gate group "month_content" db) as [[i f] |]; [| trivial].
    destruct (due (now db) f); [| trivial].
    cbn [MonthPost_objects]. intros x Hx. now apply swept_subset in Hx.
  - unfold check_result.
    destruct (gate group "month_content" db) as [[i f] |]; [| trivial].
    destruct (due (now db) f); [| trivial].
    cbn [MonthComment_objects]. intros x Hx. now apply swept_subset in Hx.
  - apply check_result_posts_next_id.
  - apply check_result_comments_next_id.
Qed.

(** ** More on the shadow tables *)

Lemma NoDup_map_filter {A B} (g : A -> B) (k : A -> bool) (l : list A) :
  NoDup (map g l) -> NoDup (map g (filter k l)).
Proof.
  induction l as [| x l IH]; cbn; intros Hnd; [constructor |].
  inversion Hnd as [| ? ? Hx Hl]; subst.
  destruct (k x); cbn; [| now apply IH].
  constructor; [| now apply IH].
  intros Hin. apply Hx.
  apply in_map_iff in Hin. destruct Hin as (y & Hy & Hin).
  apply filter_In in Hin. rewrite <- Hy. apply in_map. tauto.
Qed.

Lemma NoDup_map_snoc {A B} (g : A -> B) (l : list A) (x : A) :
  NoDup (map g l) -> ~ In (g x) (map g l) -> NoDup (map g (l ++ [x])).
Proof.
  intros Hnd Hx. rewrite map_app. cbn.
  apply NoDup_app; [exact Hnd | repeat constructor; intros [] |].
  intros b Hb [<- | []]. now apply Hx.
Qed.

Lemma check_result_one_to_one (group : Group) (db : DB) :
  one_to_one_posts db -> one_to_one_comments db ->
  one_to_one_posts (check_result group db)
  /\ one_to_one_comments (check_result group db).
Proof.
  unfold one_to_one_posts, one_to_one_comments, check_result. intros Hp Hc.
  destruct (gate group "month_content" db) as [[i f] |]; [| now split].
  destruct (due (now db) f); [| now split].
  cbn [MonthPost_objects MonthComment_objects swept rows].
  split; now apply NoDup_map_filter.
Qed.

Lemma not_found_post (post : Post) (t : Table MonthPost) :
  nonempty (matching (MonthPost.of_post post) t) = false ->
  ~ In (Post_id post) (map (fun x => MonthPost_post (snd x)) (rows t)).
Proof.
  intros Hn Hin. apply in_map_iff in Hin. destruct Hin as (x & Hx & Hin).
  assert (Hm : In x (matching (MonthPost.of_post post) t)).
  { apply filter_In. split; [exact Hin |].
    unfold MonthPost.of_post. rewrite Hx. apply String.eqb_refl. }
  destruct (matching _ t); [destruct Hm | discriminate].
Qed.

Lemma not_found_comment (comment : Comment) (t : Table MonthComment) :
  nonempty (matching (MonthComment.of_comment comment) t) = false ->
  ~ In (Comment_id comment) (map (fun x => MonthComment_comment (snd x)) (rows t)).
Proof.
  intros Hn Hin. apply in_map_iff in Hin. destruct Hin as (x & Hx & Hin).
  assert (Hm : In x (matching (MonthComment.of_comment comment) t)).
  { apply filter_In. split; [exact Hin |].
    unfold MonthComment.of_comment. rewrite Hx. apply String.eqb_refl. }
  destruct (matching _ t); [destruct Hm | discriminate].
Qed.

Lemma month_call_keeps_one_to_one (c : month_call) (db : DB) :
  one_to_one_posts db -> one_to_one_comments db ->
  exists db',
    run_month_call c db = Ok tt db'
    /\ one_to_one_posts db' /\ one_to_one_comments db'.
Proof.
  intros Hp Hc.
  destruct c as [g | post | comment | g m | dt]; cbn [run_month_call].
  - eexists. split; [apply check_runs |]. now apply check_result_one_to_one.
  - eexists. split; [apply MonthPost_create_runs |].
    destruct (check_result_one_to_one (Post_group post) db Hp Hc) as [Hp' Hc'].
    unfold inserted_unless. cbn [objects MonthPost_Model].
    destruct (nonempty _) eqn:Hn; [now split |].
    unfold one_to_one_posts, one_to_one_comments in *.
    cbn [set_objects MonthPost_Model MonthPost_objects MonthComment_objects rows].
    split; [| exact Hc'].
    apply NoDup_map_snoc; [exact Hp' |]. cbn [snd MonthPost.new MonthPost_post].
    now apply not_found_post.
  - eexists. split; [apply MonthComment_create_runs |].
    destruct (check_result_one_to_one (Comment_group comment) db Hp Hc) as [Hp' Hc'].
    unfold inserted_unless. cbn [objects MonthComment_Model].
    destruct (nonempty _) eqn:Hn; [now split |].
    unfold one_to_one_posts, one_to_one_comments in *.
    cbn [set_objects MonthComment_Model MonthPost_objects MonthComment_objects rows].
    split; [exact Hp' |].
    apply NoDup_map_snoc; [exact Hc' |]. cbn [snd MonthComment.new MonthComment_comment].
    now apply not_found_comment.
  - eexists. split; [apply update_table |]. now split.
  - eexists. split; [reflexivity |]. now split.
Qed.

(** X16.  Starting from shadow tables that obey their one-to-one
    constraints (no two rows for one post, no two rows for one comment),
    which empty tables do, any sequence of checks, shadow creations,
    gate updates and waits returns, never raising [IntegrityError], and
    leaves tables that obey them. *)
Theorem month_calls_keep_one_to_one (calls : list month_call) (db : DB) :
  one_to_one_posts db -> one_to_one_comments db ->
  exists db',
    for_each calls run_month_call db = Ok tt db'
    /\ one_to_one_posts db' /\ one_to_one_comments db'.
Proof.
  revert db. induction calls as [| c calls IH]; intros db Hp Hc.
  - exists db. split; [reflexivity | split; assumption].
  - destruct (month_call_keeps_one_to_one c db Hp Hc) as (db1 & Hrun & Hp1 & Hc1).
    destruct (IH db1 Hp1 Hc1) as (db' & Hrest & Hinv).
    exists db'. split; [| exact Hinv].
    cbn [for_each]. unfold bind. now rewrite Hrun.
Qed.

Lemma month_calls_keep_one_to_one_witness :
  exists db',
    for_each [Create_post (Sample.post_at "p1" 0); Wait (2 * day);
              Create_post (Sample.post_at "p1" 0); Create_post (Sample.post_at "p2" 0)]
             run_month_call (Sample.db_at (100 * day)) = Ok tt db'
    /\ one_to_one_posts db' /\ one_to_one_comments db'.
Proof.
  apply month_calls_keep_one_to_one; constructor.
Defined.

(** X17.  In any store [MonthPost.create(post)] returns and afterwards
    [MonthPost.objects.filter(post=post).exists()] is true.  When the
    post already has a shadow row and the gate of its group has a row
    that is not due, the call changes nothing at all: the shadow row
    keeps its stored [created_time] and group, whatever the post now
    carries.  The same holds for [MonthComment.create(comment)]. *)
Theorem month_create_keeps_existing_row :
  (forall (post : Post) (db : DB),
      exists db',
        MonthPost.create post db = Ok tt db'
        /\ qs_exists (objects_filter (MonthPost.of_post post)) db' = Ok true db')
  /\ (forall (post : Post) (db : DB),
         settled (Post_group post) db ->
         (1 <= count (MonthPost.of_post post) (MonthPost_objects db))%nat ->
         MonthPost.create post db = Ok tt db)
  /\ (forall (comment : Comment) (db : DB),
         exists db',
           MonthComment.create comment db = Ok tt db'
           /\ qs_exists (objects_filter (MonthComment.of_comment comment)) db'
              = Ok true db')
  /\ (forall (comment : Comment) (db : DB),
         settled (Comment_group comment) db ->
         (1 <= count (MonthComment.of_comment comment) (MonthComment_objects db))%nat ->
         MonthComment.create comment db = Ok tt db).
Proof.
  split; [| split; [| split]].
  - intros post db. eexists. split; [apply MonthPost_create_runs |].
    unfold qs_exists, objects_filter. cbn [result_cache where_].
    now rewrite (inserted_unless_found (MonthPost.of_post post) (MonthPost.new post)
                   (String.eqb_refl _)).
  - intros post db Hs Hc. rewrite MonthPost_create_runs, (settled_check_result _ _ Hs).
    f_equal. unfold inserted_unless, count in *. cbn [objects MonthPost_Model].
    destruct (matching _ _); [cbn in Hc; lia | reflexivity].
  - intros comment db. eexists. split; [apply MonthComment_create_runs |].
    unfold qs_exists, objects_filter. cbn [result_cache where_].
    now rewrite (inserted_unless_found (MonthComment.of_comment comment)
                   (MonthComment.new comment) (String.eqb_refl _)).
  - intros comment db Hs Hc.
    rewrite MonthComment_create_runs, (settled_check_result _ _ Hs).
    f_equal. unfold inserted_unless, count in *. cbn [objects MonthComment_Model].
    destruct (matching _ _); [cbn in Hc; lia | reflexivity].
Qed.

Lemma month_create_keeps_existing_row_witness :
  MonthPost.create (Sample.post_at "p2" (5 * day))
    {| now := 100 * day;
       UserActivity_objects := Sample.empty;
       GroupStatisticsUpdateList_objects :=
         {| rows := [(1, gate_row Sample.club "month_content" (100 * day))];
            next_id := 2 |};
       MonthPost_objects :=
         {| rows := [(2, Sample.shadow (99 * day) "g1" "p2")]; next_id := 3 |};
       MonthComment_objects := Sample.empty |}
  = Ok tt
    {| now := 100 * day;
       UserActivity_objects := Sample.empty;
       GroupStatisticsUpdateList_objects :=
         {| rows := [(1, gate_row Sample.club "month_content" (100 * day))];
            next_id := 2 |};
       MonthPost_objects :=
         {| rows := [(2, Sample.shadow (99 * day) "g1" "p2")]; next_id := 3 |};
       MonthComment_objects := Sample.empty |}.
Proof.
  apply (proj1 (proj2 month_create_keeps_existing_row)).
  - exists 1, (gate_row Sample.club "month_content" (100 * day)). split; reflexivity.
  - cbn. lia.
Defined.

(** X18.  On a gate table with distinct primary keys, [update] for one
    (group, method) key leaves the gate row of every other key as it
    is, and changes no other table; so does [check] of a group for
    every key other than the group's ["month_content"]. *)
Theorem gate_write_leaves_other_keys
        (group : Group) (method : string) (group' : Group) (method' : string) (db : DB) :
  NoDup (map fst (rows (GroupStatisticsUpdateList_objects db))) ->
  (Group_id group <> Group_id group' \/ method <> method' ->
   exists db',
     GroupStatisticsUpdateList.update group method db = Ok tt db'
     /\ gate group' method' db' = gate group' method' db
     /\ now db' = now db
     /\ UserActivity_objects db' = UserActivity_objects db
     /\ MonthPost_objects db' = MonthPost_objects db
     /\ MonthComment_objects db' = MonthComment_objects db)
  /\ (Group_id group <> Group_id group' \/ "month_content" <> method' ->
      exists db',
        check group db = Ok tt db'
        /\ gate group' method' db' = gate group' method' db).
Proof.
  intros Hnd. split; intros Ho.
  - eexists. split; [apply update_as_upsert |].
    split; [| now repeat split].
    unfold gate. cbn [with_gates set_objects GroupStatisticsUpdateList_Model
                      GroupStatisticsUpdateList_objects].
    rewrite upsert_table_other; trivial; [apply of_gate_row |].
    intros f. now apply of_other_key.
  - eexists. split; [apply check_runs |].
    unfold gate.
    destruct (check_result_gates group db) as [-> | ->]; [| reflexivity].
    rewrite upsert_table_other; trivial; [apply of_gate_row |].
    intros f. now apply of_other_key.
Qed.

Lemma gate_write_leaves_other_keys_witness :
  exists db',
    GroupStatisticsUpdateList.update Sample.club "year_content" Sample.db_due = Ok tt db'
    /\ gate Sample.club "month_content" db' = gate Sample.club "month_content" Sample.db_due.
Proof.
  destruct (proj1 (gate_write_leaves_other_keys
                     Sample.club "year_content" Sample.club "month_content" Sample.db_due
                     ltac:(cbn; repeat constructor; intros []))
                  ltac:(right; discriminate))
    as (db' & Hu & Hg & _).
  exists db'. now split.
Defined.
